(** * Map display helpers of the data cube utilities

    A shallow embedding of [data_cube_utilities/dc_display_map.py]:
    the zoom-level estimator, the fixed colour palette, and the two folium
    map composers, followed by the properties established for them.

    Conventions of the embedding.
    - Python floats are idealised as the real numbers [R]; [math.log], [/]
      and [int] keep their Python failure modes (domain error, division by
      zero), and [int] truncates toward zero.  Rounding, overflow and the
      non-finite floats are outside the model: where the exact value of a
      rounded computation would decide a statement (a logarithm next to an
      integer, a grid sample next to a bound), the statement is made with
      a guard band or not at all.
    - Python [int] is [Z], [str] is [string], lists are [list].
    - An exception is a value of [exn]; pure code runs in the error monad
      [result], the composers run in a state-and-error monad [M] over a
      store of folium objects, since folium elements are allocated and
      then mutated by [add_child]/[add_to]. *)

From Stdlib Require Import Reals Lra Lia ZArith String Ascii List DecimalString.
From stdpp Require Import base option list.
Import ListNotations.

Open Scope R_scope.

(** ** Exceptions and the error monad *)

Inductive exn : Type :=
  | AssertionError
  | ValueError
  | ZeroDivisionError
  | KeyError
  | IndexError
  | Exception (msg : string).

Inductive result (A : Type) : Type :=
  | Ok (a : A)
  | Raise (e : exn).
Arguments Ok {A} a.
Arguments Raise {A} e.

Definition rbind {A B} (r : result A) (k : A -> result B) : result B :=
  match r with
  | Ok a => k a
  | Raise e => Raise e
  end.

Notation "x <-? e ; k" := (rbind e (fun x => k))
  (at level 100, e at next level, right associativity).

Definition is_raise {A} (r : result A) : Prop :=
  match r with Ok _ => False | Raise _ => True end.

(** ** Python numeric primitives over the reals *)

(** [x != y] on floats. *)
Definition float_ne (x y : R) : bool :=
  if Req_dec_T x y then false else true.

(** [x / y]: true division, ZeroDivisionError on a zero divisor. *)
Definition truediv (x y : R) : result R :=
  if Req_dec_T y 0 then Raise ZeroDivisionError else Ok (x / y).

(** [math.log(x)]: natural logarithm, ValueError outside [(0, inf)]. *)
Definition math_log (x : R) : result R :=
  if Rlt_dec 0 x then Ok (ln x) else Raise ValueError.

(** [int(x)] on a float: truncation toward zero. *)
Definition int_of_float (x : R) : Z :=
  if Rle_dec 0 x then Zfloor x else Zceil x.

(** ** The zoom estimator *)

Definition _degree_to_zoom_level (l1 l2 margin : R) : result Z :=
  let degree := Rabs (l1 - l2) * (1 + margin) in
  if float_ne degree 0 then
    q <-? truediv 360 degree;
    num <-? math_log q;
    den <-? math_log 2;
    zoom_level_float <-? truediv num den;
    Ok (int_of_float zoom_level_float)
  else
    Ok 18%Z.

(** The quantity the specification names: the base-2 logarithm,
    truncated toward zero. *)
Definition log2_trunc (x : R) : Z := int_of_float (ln x / ln 2).

(** A relative band around a ratio, far wider than the rounding of the
    double-precision division and logarithms of the estimator: where the
    truncated logarithm is the same at both ends of the band, rounding
    cannot move the estimate. *)
Definition rounding_guard : R := / 2 ^ 30.

(** ** The colour palette *)

Definition colors : list string :=
  [
   "#000000"; "#FFFF00"; "#1CE6FF"; "#FF34FF"; "#FF4A46"; "#008941"; "#006FA6"; "#A30059"; "#FFDBE5";
   "#7A4900"; "#0000A6"; "#63FFAC"; "#B79762"; "#004D43"; "#8FB0FF"; "#997D87"; "#5A0007"; "#809693";
   "#FEFFE6"; "#1B4400"; "#4FC601"; "#3B5DFF"; "#4A3B53"; "#FF2F80"; "#61615A"; "#BA0900"; "#6B7900";
   "#00C2A0"; "#FFAA92"; "#FF90C9"; "#B903AA"; "#D16100"; "#DDEFFF"; "#000035"; "#7B4F4B"; "#A1C299";
   "#300018"; "#0AA6D8"; "#013349"; "#00846F"; "#372101"; "#FFB500"; "#C2FFED"; "#A079BF"; "#CC0744";
   "#C0B9B2"; "#C2FF99"; "#001E09"; "#00489C"; "#6F0062"; "#0CBD66"; "#EEC3FF"; "#456D75"; "#B77B68";
   "#7A87A1"; "#788D66"; "#885578"; "#FAD09F"; "#FF8A9A"; "#D157A0"; "#BEC459"; "#456648"; "#0086ED";
   "#886F4C"; "#34362D"; "#B4A8BD"; "#00A6AA"; "#452C2C"; "#636375"; "#A3C8C9"; "#FF913F"; "#938A81";
   "#575329"; "#00FECF"; "#B05B6F"; "#8CD0FF"; "#3B9700"; "#04F757"; "#C8A1A1"; "#1E6E00"; "#7900D7";
   "#A77500"; "#6367A9"; "#A05837"; "#6B002C"; "#772600"; "#D790FF"; "#9B9700"; "#549E79"; "#FFF69F";
   "#201625"; "#72418F"; "#BC23FF"; "#99ADC0"; "#3A2465"; "#922329"; "#5B4534"; "#FDE8DC"; "#404E55";
   "#0089A3"; "#CB7E98"; "#A4E804"; "#324E72"; "#6A3A4C"; "#83AB58"; "#001C1E"; "#D1F7CE"; "#004B28";
   "#C8D0F6"; "#A3A489"; "#806C66"; "#222800"; "#BF5650"; "#E83000"; "#66796D"; "#DA007C"; "#FF1A59";
   "#8ADBB4"; "#1E0200"; "#5B4E51"; "#C895C5"; "#320033"; "#FF6832"; "#66E1D3"; "#CFCDAC"; "#D0AC94";
   "#7ED379"; "#012C58"
  ]%string.

(** [str(n)] for an integer. *)
Definition str (n : Z) : string := NilZero.string_of_int (Z.to_int n).

(** [template.format(arg)] for a template with one [{}] placeholder. *)
Fixpoint format (template arg : string) : string :=
  match template with
  | EmptyString => EmptyString
  | String c rest =>
      match rest with
      | String c' rest' =>
          if (Ascii.eqb c "{" && Ascii.eqb c' "}")%bool
          then String.append arg rest'
          else String c (format rest arg)
      | EmptyString => String c EmptyString
      end
  end.

(** [l[:n]]: a negative [n] counts from the end, and both ends clamp. *)
Definition slice_to {A} (l : list A) (n : Z) : list A :=
  if (n <? 0)%Z
  then firstn (Z.to_nat (Z.max 0 (Z.of_nat (length l) + n))) l
  else firstn (Z.to_nat n) l.

Definition generate_n_visually_distinct_colors (n : Z) : result (list string) :=
  if (n >? Z.of_nat (length colors))%Z then
    Raise (Exception
             (format "Can not generate more than {} distinct colors."
                     (str (Z.of_nat (length colors)))))
  else Ok (slice_to colors n).

(** [needle in haystack] on strings, used to inspect failure details. *)
Fixpoint contains (haystack needle : string) : bool :=
  (String.prefix needle haystack ||
   match haystack with
   | EmptyString => false
   | String _ rest => contains rest needle
   end)%bool.

(** ** The folium object store

    A folium element is allocated by its constructor and later mutated:
    [parent.add_child(child)] appends to the parent's children.  The store
    keeps every element constructed so far, addressed by allocation order. *)

Abbreviation ref := nat.

(** A value of a data frame column.  Missing values (NaN) are not
    represented: frames with a NaN in the group column or in a coordinate
    are outside the model. *)
Inductive cell : Type :=
  | CNum (x : R)
  | CStr (s : string).

Inductive element : Type :=
  | Map (tiles : option string) (location : list R) (zoom_start : Z)
  | FeatureGroup (name : string) (overlay : bool)
  | TileLayer (tiles attr : string) (name subdomains : option string)
              (min_zoom max_zoom : option Z) (opacity : option R)
  | PolyLine (locations : list (list R)) (color : string) (opacity : R)
  | CircleMarker (location : list R) (radius : Z) (popup : cell)
                 (color : string) (fill : bool) (fill_color : string)
  | LatLngPopup.

Record object : Type := mkObject { elem : element; children : list ref }.

Abbreviation store := (list object).

Definition M (A : Type) : Type := store -> result A * store.

Definition ret {A} (a : A) : M A := fun s => (Ok a, s).

Definition raise {A} (e : exn) : M A := fun s => (Raise e, s).

Definition bind {A B} (m : M A) (k : A -> M B) : M B :=
  fun s =>
    match m s with
    | (Ok a, s') => k a s'
    | (Raise e, s') => (Raise e, s')
    end.

Definition lift {A} (r : result A) : M A := fun s => (r, s).

Notation "x <- e ;; k" := (bind e (fun x => k))
  (at level 100, e at next level, right associativity).
Notation "e ;; k" := (bind e (fun _ => k))
  (at level 100, right associativity).

(** A constructor call: the new element gets the next free address. *)
Definition new (e : element) : M ref :=
  fun s => (Ok (length s), s ++ [mkObject e []]).

(** [parent.add_child(child)].  References handed out by [new] are always
    live, so the lookup cannot miss on a store the composers built. *)
Definition add_child (parent child : ref) : M unit :=
  fun s =>
    (Ok tt, alter (fun o => mkObject (elem o) (children o ++ [child])) parent s).

(** [child.add_to(parent)]. *)
Definition add_to (child parent : ref) : M unit := add_child parent child.

(** [for x in l: body(x)]. *)
Fixpoint for_each {A} (l : list A) (body : A -> M unit) : M unit :=
  match l with
  | [] => ret tt
  | x :: l' => body x ;; for_each l' body
  end.

(** [assert x is not None]. *)
Definition assert_not_None {A} (x : option A) : M A :=
  match x with
  | Some a => ret a
  | None => raise AssertionError
  end.

(** The elements attached to [r], in the order they were added. *)
Definition drawn_on (s : store) (r : ref) : list element :=
  match s !! r with
  | Some o => omap (fun c => elem <$> s !! c) (children o)
  | None => []
  end.

(** ** numpy and itertools helpers *)

(** [np.mean] of a 2-tuple. *)
Definition np_mean (p : R * R) : R := (fst p + snd p) / 2.

(** [np.arange(start, stop, step)] on floats: [ceil((stop - start) / step)]
    samples [start + i * step]; the division by a zero step raises.  The
    count and the samples are exact here, where numpy rounds them, and
    numpy's refusal of a length beyond its index type is not modelled. *)
Definition arange (start stop step : R) : result (list R) :=
  if Req_dec_T step 0 then Raise ZeroDivisionError
  else
    let n := Z.to_nat (Zceil ((stop - start) / step)) in
    Ok (map (fun i => start + INR i * step) (seq 0 n)).

(** [itertools.product(xs, ys)]. *)
Definition product {A B} (xs : list A) (ys : list B) : list (A * B) :=
  flat_map (fun x => map (pair x) ys) xs.

(** ** Tile layer constants *)

Definition dq : string := String (ascii_of_nat 34) EmptyString.

Definition esri_tiles : string :=
  "https://server.arcgisonline.com/ArcGIS/rest/services/World_Imagery/MapServer/tile/{z}/{y}/{x}".

Definition esri_attr : string :=
  "Tiles &copy; Esri &mdash; Source: Esri, i-cubed, USDA, USGS, AEX, GeoEye, Getmapping, Aerogrid, IGN, IGP, UPR-EGP, and the GIS User Community".

Definition stamen_labels_tiles : string :=
  "https://stamen-tiles-{s}.a.ssl.fastly.net/toner-labels/{z}/{x}/{y}{r}.png".

Definition stamen_lines_tiles : string :=
  "https://stamen-tiles-{s}.a.ssl.fastly.net/toner-lines/{z}/{x}/{y}{r}.png".

Definition stamen_attr : string :=
  String.concat dq
    [ "Map tiles by <a href="; "http://stamen.com"; ">Stamen Design</a>, <a href=";
      "http://creativecommons.org/licenses/by/3.0";
      ">CC BY 3.0</a> &mdash; Map data &copy; <a href=";
      "https://www.openstreetmap.org/copyright";
      ">OpenStreetMap</a> contributors" ]%string.

(** ** The bounding-box composer *)

Definition display_map (latitude longitude resolution : option (R * R)) : M ref :=
  latitude <- assert_not_None latitude ;;
  longitude <- assert_not_None longitude ;;
  let margin := -0.5 in
  let zoom_bias := 0%Z in
  lat_zoom_level <- lift (z <-? _degree_to_zoom_level (fst latitude) (snd latitude) margin;
                          Ok (z + zoom_bias)%Z) ;;
  lon_zoom_level <- lift (z <-? _degree_to_zoom_level (fst longitude) (snd longitude) margin;
                          Ok (z + zoom_bias)%Z) ;;
  let zoom_level := Z.min lat_zoom_level lon_zoom_level in
  let center := [np_mean latitude; np_mean longitude] in
  map_hybrid <- new (Map None center zoom_level) ;;
  feat_group <- new (FeatureGroup "ESRI World Imagery" false) ;;
  t1 <- new (TileLayer esri_tiles esri_attr (Some "ESRI World Imagery"%string)
                       None None None None) ;;
  add_child feat_group t1 ;;
  t2 <- new (TileLayer stamen_labels_tiles stamen_attr None (Some "abcd"%string)
                       (Some 0%Z) (Some 20%Z) None) ;;
  add_child feat_group t2 ;;
  t3 <- new (TileLayer stamen_lines_tiles stamen_attr None (Some "abcd"%string)
                       (Some 0%Z) (Some 20%Z) (Some 0.4)) ;;
  add_child feat_group t3 ;;
  add_child map_hybrid feat_group ;;
  match resolution with
  | Some (res_lat, res_lon) =>
      lats <- lift (arange (fst latitude) (snd latitude) (Rabs res_lat)) ;;
      lons <- lift (arange (fst longitude) (snd longitude) (Rabs res_lon)) ;;
      let vertical_grid :=
        map (fun x => [[fst (fst x); snd x]; [snd (fst x); snd x]])
            (product [latitude] lons) in
      let horizontal_grid :=
        map (fun x => [[snd x; fst (fst x)]; [snd x; snd (fst x)]])
            (product [longitude] lats) in
      for_each vertical_grid
        (fun segment => p <- new (PolyLine segment "white" 0.3) ;; add_to p map_hybrid) ;;
      for_each horizontal_grid
        (fun segment => p <- new (PolyLine segment "white" 0.3) ;; add_to p map_hybrid)
  | None => ret tt
  end ;;
  let line_segments :=
    [ [fst latitude; fst longitude];
      [fst latitude; snd longitude];
      [snd latitude; snd longitude];
      [snd latitude; fst longitude];
      [fst latitude; fst longitude] ] in
  box <- new (PolyLine line_segments "red" 0.8) ;;
  add_child map_hybrid box ;;
  popup <- new LatLngPopup ;;
  add_child map_hybrid popup ;;
  ret map_hybrid.

(** ** pandas helpers

    A data frame is its list of rows; every row has the two float columns
    the composer reads by attribute and any further named columns. *)

Record row : Type := mkRow {
  Latitude : R;
  Longitude : R;
  attrs : list (string * cell)
}.

Abbreviation DataFrame := (list row).

Definition cell_eqb (a b : cell) : bool :=
  match a, b with
  | CNum x, CNum y => if Req_dec_T x y then true else false
  | CStr s, CStr t => String.eqb s t
  | _, _ => false
  end.

Fixpoint assoc (name : string) (l : list (string * cell)) : option cell :=
  match l with
  | [] => None
  | (k, v) :: l' => if String.eqb k name then Some v else assoc name l'
  end.

(** [row[name]]. *)
Definition row_getitem (r : row) (name : string) : result cell :=
  if String.eqb name "Latitude" then Ok (CNum (Latitude r))
  else if String.eqb name "Longitude" then Ok (CNum (Longitude r))
  else match assoc name (attrs r) with
       | Some c => Ok c
       | None => Raise KeyError
       end.

(** [data_frame[name]]: the column as a sequence. *)
Fixpoint df_getitem (data_frame : DataFrame) (name : string) : result (list cell) :=
  match data_frame with
  | [] => Ok []
  | r :: rest =>
      c <-? row_getitem r name;
      cs <-? df_getitem rest name;
      Ok (c :: cs)
  end.

(** [data_frame.iloc[i]]. *)
Definition iloc (data_frame : DataFrame) (i : nat) : result row :=
  match data_frame !! i with
  | Some r => Ok r
  | None => Raise IndexError
  end.

(** Column aggregates.  On an empty column pandas yields NaN, and the NaN
    bounds make [int] inside the estimator raise ValueError before anything
    is constructed; the embedding raises that ValueError at the aggregate. *)
Definition series_mean (l : list R) : result R :=
  match l with
  | [] => Raise ValueError
  | _ => Ok (fold_right Rplus 0 l / INR (length l))
  end.

Definition series_min (l : list R) : result R :=
  match l with
  | [] => Raise ValueError
  | x :: l' => Ok (fold_left Rmin l' x)
  end.

Definition series_max (l : list R) : result R :=
  match l with
  | [] => Raise ValueError
  | x :: l' => Ok (fold_left Rmax l' x)
  end.

(** [pd.unique]: distinct values in order of first appearance. *)
Fixpoint unique_from (seen l : list cell) : list cell :=
  match l with
  | [] => []
  | x :: l' =>
      if existsb (cell_eqb x) seen then unique_from seen l'
      else x :: unique_from (x :: seen) l'
  end.

Definition pd_unique (l : list cell) : list cell := unique_from [] l.

(** [labels.index(x)]. *)
Fixpoint list_index (l : list cell) (x : cell) : result nat :=
  match l with
  | [] => Raise ValueError
  | y :: l' =>
      if cell_eqb y x then Ok 0%nat
      else i <-? list_index l' x; Ok (S i)
  end.

(** A Python dict from labels to colours: insertion order, unique keys. *)
Definition dict := list (cell * string).

Fixpoint dict_set (d : dict) (k : cell) (v : string) : dict :=
  match d with
  | [] => [(k, v)]
  | (k', v') :: d' =>
      if cell_eqb k' k then (k', v) :: d' else (k', v') :: dict_set d' k v
  end.

Fixpoint dict_get (d : dict) (k : cell) : result string :=
  match d with
  | [] => Raise KeyError
  | (k', v) :: d' => if cell_eqb k' k then Ok v else dict_get d' k
  end.

(** [{k: v for k, v in pairs}]. *)
Definition dict_of (pairs : list (cell * string)) : dict :=
  fold_left (fun d kv => dict_set d (fst kv) (snd kv)) pairs [].

(** ** The grouped-point composer *)

(** Lines 180-183: the labels and the label-to-colour dictionary. *)
Definition label_colors (data_frame : DataFrame) (group_column_name : string)
  : result (list cell * dict) :=
  col <-? df_getitem data_frame group_column_name;
  let labels := pd_unique col in
  pallete <-? generate_n_visually_distinct_colors (Z.of_nat (length labels));
  Ok (labels, dict_of (combine labels pallete)).

Definition display_grouped_pandas_rows_as_pins
    (data_frame : DataFrame) (group_name : string) (folium_map : option ref) : M ref :=
  let group_column_name := group_name in
  lat_mean <- lift (series_mean (map Latitude data_frame)) ;;
  lon_mean <- lift (series_mean (map Longitude data_frame)) ;;
  let center := [lat_mean; lon_mean] in
  lat_min <- lift (series_min (map Latitude data_frame)) ;;
  lat_max <- lift (series_max (map Latitude data_frame)) ;;
  zoom_level <- lift (_degree_to_zoom_level lat_min lat_max 0.0) ;;
  lc <- lift (label_colors data_frame group_column_name) ;;
  let labels := fst lc in
  let colors := snd lc in
  m <- match folium_map with
       | Some m => ret m
       | None =>
           m <- new (Map None center zoom_level) ;;
           f <- new (FeatureGroup "ESRI World Imagery" false) ;;
           t1 <- new (TileLayer esri_tiles esri_attr (Some "ESRI World Imagery"%string)
                                None None None None) ;;
           add_child f t1 ;;
           t2 <- new (TileLayer stamen_labels_tiles stamen_attr None (Some "abcd"%string)
                                (Some 0%Z) (Some 20%Z) None) ;;
           add_child f t2 ;;
           t3 <- new (TileLayer stamen_lines_tiles stamen_attr None (Some "abcd"%string)
                                (Some 0%Z) (Some 20%Z) (Some 0.4)) ;;
           add_child f t3 ;;
           add_child m f ;;
           ret m
       end ;;
  for_each (seq 0 (length data_frame))
    (fun i =>
       r <- lift (iloc data_frame i) ;;
       land_cover <- lift (row_getitem r group_column_name) ;;
       index <- lift (list_index labels land_cover) ;;
       _color <- lift (dict_get colors land_cover) ;;
       p <- new (CircleMarker [Latitude r; Longitude r] 5 land_cover
                              _color true _color) ;;
       add_to p m) ;;
  popup <- new LatLngPopup ;;
  add_child m popup ;;
  ret m.

(** ** Reading the store *)

(** The element stored at [r]. *)
Definition has_elem (s : store) (r : ref) (e : element) : Prop :=
  elem <$> s !! r = Some e.

(** [r] is a live element [e] whose children, in order, are live and are
    the elements [es]. *)
Definition attached (s : store) (r : ref) (e : element) (es : list element) : Prop :=
  exists cs, s !! r = Some (mkObject e cs) /\ Forall2 (has_elem s) cs es.

(** What [parent.add_child(child)] does to the parent object. *)
Definition with_child (child : ref) (o : object) : object :=
  mkObject (elem o) (children o ++ [child]).

(** The optional grid step of [display_map] is usable: neither spacing
    is zero. *)
Definition grid_step_ok (resolution : option (R * R)) : Prop :=
  match resolution with
  | Some (res_lat, res_lon) => res_lat <> 0 /\ res_lon <> 0
  | None => True
  end.

(** The imagery group both composers attach first. *)
Definition esri_group : element := FeatureGroup "ESRI World Imagery" false.

(** The white grid line and the red outline of [display_map]. *)
Definition grid_line (segment : list (list R)) : element :=
  PolyLine segment "white" 0.3.

Definition outline (latitude longitude : R * R) : element :=
  PolyLine [ [fst latitude; fst longitude];
             [fst latitude; snd longitude];
             [snd latitude; snd longitude];
             [snd latitude; fst longitude];
             [fst latitude; fst longitude] ] "red" 0.8.

(** The marker [display_grouped_pandas_rows_as_pins] draws for a row. *)
Definition pin (r : row) (label : cell) (color : string) : element :=
  CircleMarker [Latitude r; Longitude r] 5 label color true color.

(** ** Notions used to state further properties *)

(** A colour of the form [#RRGGBB] with upper-case hexadecimal digits. *)
Definition is_hex_digit (c : ascii) : bool :=
  let n := nat_of_ascii c in
  ((48 <=? n) && (n <=? 57) || (65 <=? n) && (n <=? 70))%nat.

Definition is_hex_color (c : string) : bool :=
  match c with
  | String "#" digits =>
      (String.length digits =? 6)%nat &&
      forallb is_hex_digit (list_ascii_of_string digits)
  | _ => false
  end.

(** Pairwise distinct strings, decided. *)
Fixpoint distinctb (l : list string) : bool :=
  match l with
  | [] => true
  | x :: l' => negb (existsb (String.eqb x) l') && distinctb l'
  end.

(** [s] extends [s0]: every object of [s0] is still there with the same
    element and its old children first, and only [m] may have gained
    children. *)
Definition kept (m : ref) (s0 s : store) : Prop :=
  (length s0 <= length s)%nat /\
  forall r o,
    s0 !! r = Some o ->
    exists extra,
      s !! r = Some (mkObject (elem o) (children o ++ extra)) /\
      (r <> m -> extra = []).

(** A computation that keeps the store invariant [I] on every outcome and
    whose returned value satisfies [Q]. *)
Definition keeps {A} (I : store -> Prop) (c : M A) (Q : A -> Prop) : Prop :=
  forall s v s',
    I s -> c s = (v, s') ->
    I s' /\ match v with Ok a => Q a | Raise _ => True end.

(** * Properties *)

(** ** Truncated base-2 logarithm *)

Section Log2.

Lemma ln2_pos : 0 < ln 2.
Proof. pose proof ln_lt_2. lra. Qed.

Lemma ln_le_mono (x y : R) : 0 < x -> x <= y -> ln x <= ln y.
Proof.
  intros Hx [Hlt | ->]; [ left; now apply ln_increasing | right; reflexivity ].
Qed.

Lemma ln_pow2 (k : nat) : ln (2 ^ k) = INR k * ln 2.
Proof. apply ln_pow. lra. Qed.

Lemma int_of_float_nonneg (x : R) (z : Z) :
  (0 <= z)%Z -> IZR z <= x < IZR z + 1 -> int_of_float x = z.
Proof.
  intros Hz Hx. unfold int_of_float.
  assert (0 <= IZR z) by now apply IZR_le.
  destruct (Rle_dec 0 x) as [_ | Hn]; [ now apply Zfloor_eq | lra ].
Qed.



Lemma log2_trunc_pow (x : R) (k : nat) :
  2 ^ k <= x < 2 ^ S k -> log2_trunc x = Z.of_nat k.
Proof.
  intros [Hlo Hhi]. pose proof ln2_pos as H2.
  assert (Hk : 0 < 2 ^ k) by (apply pow_lt; lra).
  assert (Hx : 0 < x) by lra.
  pose proof (ln_le_mono _ _ Hk Hlo) as Hl.
  pose proof (ln_increasing _ _ Hx Hhi) as Hu.
  rewrite ln_pow2 in Hl. rewrite ln_pow2, S_INR in Hu.
  apply int_of_float_nonneg; [ lia | ].
  rewrite <- INR_IZR_INZ. split.
  - apply Rmult_le_reg_r with (ln 2); [ lra | ].
    unfold Rdiv. rewrite Rmult_assoc, Rinv_l by lra. lra.
  - apply Rmult_lt_reg_r with (ln 2); [ lra | ].
    unfold Rdiv. rewrite Rmult_assoc, Rinv_l by lra. lra.
Qed.



Lemma int_of_float_mono (x y : R) : x <= y -> (int_of_float x <= int_of_float y)%Z.
Proof.
  intros Hxy. unfold int_of_float.
  destruct (Rle_dec 0 x) as [Hx | Hx], (Rle_dec 0 y) as [Hy | Hy]; try lra.
  - now apply Zfloor_le.
  - pose proof (Zceil_bound x) as [_ Hc].
    assert (Zceil x <= 0)%Z.
    { assert (Zceil x < 1)%Z; [ apply lt_IZR | lia ].
      pose proof (Zceil_bound x). lra. }
    assert (0 <= Zfloor y)%Z by now apply (Zfloor_lub 0).
    lia.
  - now apply Zceil_le.
Qed.

Lemma log2_trunc_mono (x y : R) : 0 < x -> x <= y -> (log2_trunc x <= log2_trunc y)%Z.
Proof.
  intros Hx Hxy. apply int_of_float_mono. pose proof ln2_pos.
  pose proof (ln_le_mono x y Hx Hxy).
  unfold Rdiv. apply Rmult_le_compat_r; [ | assumption ].
  left. now apply Rinv_0_lt_compat.
Qed.

Lemma rounding_guard_small : 0 < rounding_guard < / 1000.
Proof.
  unfold rounding_guard. split.
  - apply Rinv_0_lt_compat, pow_lt. lra.
  - apply Rinv_lt_contravar; simpl; lra.
Qed.

End Log2.

(** ** The zoom estimator *)

Section Zoom.

Variables l1 l2 margin : R.

Let degree := Rabs (l1 - l2) * (1 + margin).

Lemma zoom_zero_span : degree = 0 -> _degree_to_zoom_level l1 l2 margin = Ok 18%Z.
Proof.
  intros H. unfold _degree_to_zoom_level, float_ne. fold degree.
  destruct (Req_dec_T degree 0); [ reflexivity | contradiction ].
Qed.

Lemma zoom_positive_span :
  0 < degree ->
  _degree_to_zoom_level l1 l2 margin = Ok (log2_trunc (360 / degree)).
Proof.
  intros H. unfold _degree_to_zoom_level, float_ne, truediv, math_log. fold degree.
  pose proof ln2_pos as H2.
  assert (Hq : 0 < 360 / degree) by (apply Rdiv_lt_0_compat; lra).
  destruct (Req_dec_T degree 0) as [E | _]; [ lra | ]. cbn.
  destruct (Rlt_dec 0 (360 / degree)) as [_ | N]; [ | contradiction ]. cbn.
  destruct (Rlt_dec 0 2) as [_ | N]; [ | lra ]. cbn.
  destruct (Req_dec_T (ln 2) 0) as [E | _]; [ lra | ]. reflexivity.
Qed.

Lemma zoom_negative_span :
  degree < 0 -> _degree_to_zoom_level l1 l2 margin = Raise ValueError.
Proof.
  intros H. unfold _degree_to_zoom_level, float_ne, truediv, math_log. fold degree.
  assert (Hq : 360 / degree < 0).
  { unfold Rdiv. apply Rinv_lt_0_compat in H. nra. }
  destruct (Req_dec_T degree 0) as [E | _]; [ lra | ]. cbn.
  destruct (Rlt_dec 0 (360 / degree)) as [P | _]; [ lra | ]. reflexivity.
Qed.

End Zoom.

Ltac solve_abs := unfold Rabs; destruct (Rcase_abs _); lra.

Example zoom_world : _degree_to_zoom_level 0 360 0 = Ok 0%Z.
Proof.
  rewrite zoom_positive_span by (replace (Rabs (0 - 360)) with 360 by solve_abs; lra).
  f_equal. apply (log2_trunc_pow _ 0).
  replace (Rabs (0 - 360)) with 360 by solve_abs. simpl. lra.
Qed.

Example zoom_hemisphere : _degree_to_zoom_level 0 180 0 = Ok 1%Z.
Proof.
  rewrite zoom_positive_span by (replace (Rabs (0 - 180)) with 180 by solve_abs; lra).
  f_equal. apply (log2_trunc_pow _ 1).
  replace (Rabs (0 - 180)) with 180 by solve_abs. simpl. lra.
Qed.

Example zoom_256th : _degree_to_zoom_level 0 1.40625 0 = Ok 8%Z.
Proof.
  rewrite zoom_positive_span
    by (replace (Rabs (0 - 1.40625)) with 1.40625 by solve_abs; lra).
  f_equal. apply (log2_trunc_pow _ 8).
  replace (Rabs (0 - 1.40625)) with 1.40625 by solve_abs. simpl. lra.
Qed.


(** C1 (as amended).  With [span = |high - low| * (1 + margin)]: a zero span
    gives 18; a negative span makes [math.log] raise, so nothing is
    returned; a positive span gives an integer that lies between the
    base-2 logarithm of [360 / span], truncated toward zero, taken at the
    two ends of the rounding guard band, and so equals the truncated
    logarithm of [360 / span] wherever the two ends agree.  Equal bounds
    give 18 for every margin, and with margin 0 the bounds (0, 360),
    (0, 180) and (0, 1.40625) give 0, 1, 8. *)
Theorem zoom_level_by_span (low high margin : R) :
  let span := Rabs (high - low) * (1 + margin) in
  (span = 0 -> _degree_to_zoom_level low high margin = Ok 18%Z) /\
  (0 < span ->
   exists z : Z,
     _degree_to_zoom_level low high margin = Ok z /\
     (log2_trunc (360 / span * (1 - rounding_guard)) <= z
      <= log2_trunc (360 / span * (1 + rounding_guard)))%Z /\
     (log2_trunc (360 / span * (1 - rounding_guard)) =
      log2_trunc (360 / span * (1 + rounding_guard)) ->
      z = log2_trunc (360 / span))) /\
  (span < 0 -> _degree_to_zoom_level low high margin = Raise ValueError) /\
  (low = high -> _degree_to_zoom_level low high margin = Ok 18%Z) /\
  _degree_to_zoom_level 0 360 0 = Ok 0%Z /\
  _degree_to_zoom_level 0 180 0 = Ok 1%Z /\
  _degree_to_zoom_level 0 1.40625 0 = Ok 8%Z.
Proof.
  intros span. unfold span. rewrite (Rabs_minus_sym high low).
  split; [ apply zoom_zero_span | ].
  split; [ | repeat split ].
  - intros Hpos. eexists. split; [ now apply zoom_positive_span | ].
    pose proof rounding_guard_small as [G0 G1].
    set (r := 360 / (Rabs (low - high) * (1 + margin))).
    assert (Hr : 0 < r) by (apply Rdiv_lt_0_compat; lra).
    assert (Hlo : (log2_trunc (r * (1 - rounding_guard)) <= log2_trunc r)%Z).
    { apply log2_trunc_mono; nra. }
    assert (Hhi : (log2_trunc r <= log2_trunc (r * (1 + rounding_guard)))%Z).
    { apply log2_trunc_mono; nra. }
    split; [ split; assumption | reflexivity ].
  - apply zoom_negative_span.
  - intros ->. apply zoom_zero_span.
    replace (high - high) with 0 by lra. rewrite Rabs_R0. lra.
  - exact zoom_world.
  - exact zoom_hemisphere.
  - exact zoom_256th.
Qed.

Lemma zoom_level_by_span_witness :
  _degree_to_zoom_level 0 100 0 = Ok 1%Z.
Proof.
  assert (E : Rabs (100 - 0) * (1 + 0) = 100) by solve_abs.
  pose proof rounding_guard_small as [G0 G1].
  assert (Elo : log2_trunc (360 / 100 * (1 - rounding_guard)) = 1%Z)
    by (apply (log2_trunc_pow _ 1); simpl; lra).
  assert (Ehi : log2_trunc (360 / 100 * (1 + rounding_guard)) = 1%Z)
    by (apply (log2_trunc_pow _ 1); simpl; lra).
  destruct (proj1 (proj2 (zoom_level_by_span 0 100 0))) as (z & Hz & [Hlo Hhi] & _).
  - rewrite E. lra.
  - rewrite E, Elo in Hlo. rewrite E, Ehi in Hhi. rewrite Hz. f_equal. lia.
Defined.

(** C1, the claim as written fails: with bounds (0, 1) and margin -2 the
    span is -1, not zero, and the estimator raises instead of returning. *)
Lemma zoom_raises_on_negative_span :
  Rabs (1 - 0) * (1 + -2) = -1 /\
  _degree_to_zoom_level 0 1 (-2) = Raise ValueError.
Proof.
  assert (E : Rabs (1 - 0) * (1 + -2) = -1) by solve_abs.
  split; [ exact E | ].
  apply zoom_negative_span. rewrite Rabs_minus_sym, E. lra.
Qed.




(** C9.  Swapping the two bounds does not change the outcome of the
    estimator, whether a zoom level or a failure. *)
Theorem zoom_level_symmetric (low high margin : R) :
  _degree_to_zoom_level low high margin = _degree_to_zoom_level high low margin.
Proof.
  unfold _degree_to_zoom_level. now rewrite (Rabs_minus_sym low high).
Qed.

(** ** The colour palette *)

Lemma colors_length : length colors = 128%nat.
Proof. reflexivity. Qed.

Lemma too_many_colors (n : Z) :
  (128 < n)%Z ->
  generate_n_visually_distinct_colors n =
  Raise (Exception "Can not generate more than 128 distinct colors.").
Proof.
  intros H. unfold generate_n_visually_distinct_colors.
  rewrite colors_length.
  destruct (Z.gtb_spec n (Z.of_nat 128)) as [_ | Hle]; [ reflexivity | lia ].
Qed.

Lemma enough_colors (n : Z) :
  (n <= 128)%Z ->
  generate_n_visually_distinct_colors n = Ok (slice_to colors n).
Proof.
  intros H. unfold generate_n_visually_distinct_colors.
  rewrite colors_length.
  destruct (Z.gtb_spec n (Z.of_nat 128)) as [Hgt | _]; [ lia | reflexivity ].
Qed.

Lemma colors_raise_iff (n : Z) :
  is_raise (generate_n_visually_distinct_colors n) <-> (128 < n)%Z.
Proof.
  destruct (Z.lt_ge_cases 128 n) as [H | H].
  - rewrite too_many_colors by assumption. cbn. tauto.
  - rewrite enough_colors by assumption. cbn. split; [ tauto | lia ].
Qed.

(** C3.  For a non-negative count the generator fails exactly above 128
    and otherwise returns the first [n] palette entries, in palette order:
    nothing for 0, the whole palette for 128, a failure for 129. *)
Theorem colors_prefix_or_failure (n : Z) :
  (0 <= n)%Z ->
  (is_raise (generate_n_visually_distinct_colors n) <-> (128 < n)%Z) /\
  ((n <= 128)%Z ->
   generate_n_visually_distinct_colors n = Ok (firstn (Z.to_nat n) colors)) /\
  generate_n_visually_distinct_colors 0 = Ok [] /\
  generate_n_visually_distinct_colors 128 = Ok colors /\
  is_raise (generate_n_visually_distinct_colors 129).
Proof.
  intros Hn. split; [ apply colors_raise_iff | ].
  split; [ | repeat split ].
  intros Hle. rewrite enough_colors by assumption. unfold slice_to.
  destruct (Z.ltb_spec n 0); [ lia | reflexivity ].
Qed.

Lemma colors_prefix_or_failure_witness :
  generate_n_visually_distinct_colors 2 = Ok ["#000000"; "#FFFF00"]%string.
Proof.
  rewrite (proj1 (proj2 (colors_prefix_or_failure 2 ltac:(lia)))) by lia.
  reflexivity.
Defined.

(** C5 (as amended).  When the requested count exceeds 128 the failure
    detail is one fixed message that names the maximum, 128. *)
Theorem colors_failure_detail (n : Z) :
  (128 < n)%Z ->
  exists detail : string,
    generate_n_visually_distinct_colors n = Raise (Exception detail) /\
    detail = "Can not generate more than 128 distinct colors."%string /\
    contains detail (str 128) = true.
Proof.
  intros H. eexists. split; [ now apply too_many_colors | ].
  split; reflexivity.
Qed.

Lemma colors_failure_detail_witness :
  exists detail : string,
    generate_n_visually_distinct_colors 129 = Raise (Exception detail) /\
    detail = "Can not generate more than 128 distinct colors."%string /\
    contains detail (str 128) = true.
Proof. apply (colors_failure_detail 129). lia. Defined.

(** C5, the claim as written fails: the detail raised for 129 does not
    mention 129, and it is the very detail raised for 130. *)
Lemma colors_failure_detail_omits_request :
  generate_n_visually_distinct_colors 129 =
    Raise (Exception "Can not generate more than 128 distinct colors.") /\
  contains "Can not generate more than 128 distinct colors." (str 129) = false /\
  generate_n_visually_distinct_colors 129 = generate_n_visually_distinct_colors 130.
Proof. repeat split. Qed.

(** C10 (as amended).  A negative count from -128 up to -1 does not
    fail: the slice counts from the end, so the caller gets the first
    [128 + n] entries, a shortened palette that is empty exactly for
    [n = -128].  Only a count above 128 raises. *)
Theorem colors_negative_count (n : Z) :
  (-128 <= n < 0)%Z ->
  generate_n_visually_distinct_colors n = Ok (firstn (Z.to_nat (128 + n)) colors) /\
  length (firstn (Z.to_nat (128 + n)) colors) = Z.to_nat (128 + n) /\
  (firstn (Z.to_nat (128 + n)) colors = [] <-> n = (-128)%Z) /\
  (forall m : Z, is_raise (generate_n_visually_distinct_colors m) <-> (128 < m)%Z).
Proof.
  intros Hn.
  assert (Hlen : length (firstn (Z.to_nat (128 + n)) colors) = Z.to_nat (128 + n)).
  { rewrite length_firstn, colors_length. lia. }
  split; [ | split; [ exact Hlen | split; [ | apply colors_raise_iff ] ] ].
  - rewrite enough_colors by lia. unfold slice_to. rewrite colors_length.
    destruct (Z.ltb_spec n 0); [ | lia ].
    do 2 f_equal. lia.
  - split.
    + intros E. rewrite E in Hlen. cbn in Hlen. lia.
    + intros ->. reflexivity.
Qed.

Lemma colors_negative_count_witness :
  generate_n_visually_distinct_colors (-126) = Ok ["#000000"; "#FFFF00"]%string.
Proof.
  rewrite (proj1 (colors_negative_count (-126) ltac:(lia))). reflexivity.
Defined.

(** C10, the claim as written fails: the count -128 lies in the range and
    the caller receives the empty sequence. *)
Lemma colors_count_minus_128_is_empty :
  (-128 <= -128 < 0)%Z /\
  generate_n_visually_distinct_colors (-128) = Ok [].
Proof. split; [ lia | reflexivity ]. Qed.

(** ** The object store *)

Section Store.

Implicit Types (s : store) (r p c : ref) (e : element) (es : list element).

Lemma has_elem_lt s r e : has_elem s r e -> (r < length s)%nat.
Proof.
  unfold has_elem. intros H. apply lookup_lt_is_Some.
  destruct (s !! r); [ now eexists | discriminate ].
Qed.

Lemma has_elem_alloc s r e o : has_elem s r e -> has_elem (s ++ [o]) r e.
Proof.
  intros H. pose proof (has_elem_lt _ _ _ H) as Hlt.
  unfold has_elem in *. now rewrite lookup_app_l.
Qed.

Lemma has_elem_fresh s e : has_elem (s ++ [mkObject e []]) (length s) e.
Proof. unfold has_elem. now rewrite list_lookup_middle. Qed.

Lemma has_elem_link s p c r e :
  has_elem s r e -> has_elem (alter (with_child c) p s) r e.
Proof.
  unfold has_elem. rewrite list_lookup_alter.
  destruct (decide (p = r)) as [-> | _]; [ | trivial ].
  destruct (s !! r); [ trivial | discriminate ].
Qed.

Lemma attached_lt s r e es : attached s r e es -> (r < length s)%nat.
Proof. intros [cs [H _]]. eapply lookup_lt_Some, H. Qed.

Lemma attached_alloc s r e es o : attached s r e es -> attached (s ++ [o]) r e es.
Proof.
  intros [cs [H F]]. exists cs. split.
  - rewrite lookup_app_l; [ exact H | eapply lookup_lt_Some, H ].
  - eapply Forall2_impl; [ exact F | ]. intros. now apply has_elem_alloc.
Qed.

Lemma attached_fresh s e : attached (s ++ [mkObject e []]) (length s) e [].
Proof. exists []. split; [ now rewrite list_lookup_middle | constructor ]. Qed.

Lemma attached_link_other s p c r e es :
  p <> r -> attached s r e es -> attached (alter (with_child c) p s) r e es.
Proof.
  intros Hne [cs [H F]]. exists cs. split.
  - now rewrite list_lookup_alter_ne.
  - eapply Forall2_impl; [ exact F | ]. intros. now apply has_elem_link.
Qed.

Lemma attached_link s c r e es ec :
  attached s r e es -> has_elem s c ec ->
  attached (alter (with_child c) r s) r e (es ++ [ec]).
Proof.
  intros [cs [H F]] Hc. exists (cs ++ [c]). split.
  - rewrite list_lookup_alter_eq, H. reflexivity.
  - apply Forall2_app.
    + eapply Forall2_impl; [ exact F | ]. intros. now apply has_elem_link.
    + repeat constructor. now apply has_elem_link.
Qed.

Lemma attached_drawn_on s r e es : attached s r e es -> drawn_on s r = es.
Proof.
  intros [cs [H F]]. unfold drawn_on. rewrite H. cbn [children]. clear H.
  induction F as [ | c e' cs es Hc F IH ]; [ reflexivity | ].
  cbn. unfold has_elem in Hc. rewrite Hc. cbn. now rewrite IH.
Qed.

(** One step of a composer at a time. *)

Lemma run_ret {A B} (a : A) (k : A -> M B) s : (x <- ret a ;; k x) s = k a s.
Proof. reflexivity. Qed.

Lemma run_seq {A B} (m : M A) (k : A -> M B) s a s' :
  m s = (Ok a, s') -> (x <- m ;; k x) s = k a s'.
Proof. intros H. unfold bind. now rewrite H. Qed.

Lemma run_assoc {A B C} (m : M A) (f : A -> M B) (k : B -> M C) s :
  (y <- (x <- m ;; f x) ;; k y) s = (x <- m ;; y <- f x ;; k y) s.
Proof. unfold bind. destruct (m s) as [[a | x] s']; reflexivity. Qed.

Lemma run_lift {A B} (v : result A) (a : A) (k : A -> M B) s :
  v = Ok a -> (x <- lift v ;; k x) s = k a s.
Proof. intros ->. reflexivity. Qed.

Lemma run_lift_raise {A B} (v : result A) (x : exn) (k : A -> M B) s :
  v = Raise x -> (y <- lift v ;; k y) s = (Raise x, s).
Proof. intros ->. reflexivity. Qed.

Lemma run_new {B} e (k : ref -> M B) s :
  (x <- new e ;; k x) s = k (length s) (s ++ [mkObject e []]).
Proof. reflexivity. Qed.

Lemma run_add_child {B} p c (k : unit -> M B) s :
  (x <- add_child p c ;; k x) s = k tt (alter (with_child c) p s).
Proof. reflexivity. Qed.

(** A loop that constructs one element per item and adds it to [r]. *)
Lemma for_each_attach {A} (g : A -> element) (l : list A) s r e es :
  attached s r e es ->
  exists s',
    for_each l (fun x => p <- new (g x) ;; add_to p r) s = (Ok tt, s') /\
    attached s' r e (es ++ map g l) /\
    (forall r' e', has_elem s r' e' -> has_elem s' r' e').
Proof.
  revert s es. induction l as [ | x l IH ]; intros s es H.
  - exists s. cbn. rewrite app_nil_r. auto.
  - cbn [for_each]. rewrite run_assoc, run_new. unfold add_to.
    rewrite run_add_child.
    destruct (IH (alter (with_child (length s)) r (s ++ [mkObject (g x) []]))
                 (es ++ [g x])) as (s' & Hrun & Hatt & Hmono).
    { apply attached_link; [ now apply attached_alloc | apply has_elem_fresh ]. }
    exists s'. split; [ exact Hrun | ]. split.
    + cbn [map]. now rewrite <- app_assoc in Hatt.
    + intros r' e' Hr'. now apply Hmono, has_elem_link, has_elem_alloc.
Qed.

End Store.

(** ** The bounding-box composer *)

Lemma zoom_half_margin (a b : R) :
  exists z : Z, _degree_to_zoom_level a b (-0.5) = Ok z.
Proof.
  pose proof (Rabs_pos (a - b)) as [Hpos | Hz].
  - eexists. apply zoom_positive_span. lra.
  - exists 18%Z. apply zoom_zero_span. rewrite <- Hz. lra.
Qed.

Lemma arange_ok (start stop step : R) :
  step <> 0 -> exists l, arange start stop (Rabs step) = Ok l.
Proof.
  intros H. unfold arange.
  destruct (Req_dec_T (Rabs step) 0) as [E | _]; [ | eauto ].
  now apply Rabs_no_R0 in E.
Qed.

(** The imagery group: the eight statements both composers run right
    after creating a map [r]. *)
Lemma run_esri_group (s : store) (r : ref) (e : element) (es : list element) :
  attached s r e es ->
  exists s',
    (forall B (k : unit -> M B),
       (f <- new (FeatureGroup "ESRI World Imagery" false) ;;
        t1 <- new (TileLayer esri_tiles esri_attr (Some "ESRI World Imagery"%string)
                             None None None None) ;;
        add_child f t1 ;;
        t2 <- new (TileLayer stamen_labels_tiles stamen_attr None (Some "abcd"%string)
                             (Some 0%Z) (Some 20%Z) None) ;;
        add_child f t2 ;;
        t3 <- new (TileLayer stamen_lines_tiles stamen_attr None (Some "abcd"%string)
                             (Some 0%Z) (Some 20%Z) (Some 0.4)) ;;
        add_child f t3 ;;
        x <- add_child r f ;;
        k x) s = k tt s') /\
    attached s' r e (es ++ [esri_group]) /\
    (forall r' e', has_elem s r' e' -> has_elem s' r' e').
Proof.
  intros H. pose proof (attached_lt _ _ _ _ H) as Hlt.
  set (f := length s).
  assert (Hf : f <> r) by (unfold f; lia).
  eexists. split; [ | split ].
  - intros B k.
    rewrite run_new, run_new, run_add_child, run_new, run_add_child.
    rewrite run_new, run_add_child, run_add_child. reflexivity.
  - apply attached_link.
    + repeat first [ apply attached_link_other; [ exact Hf | ] | apply attached_alloc ].
      exact H.
    + repeat first [ apply has_elem_fresh | apply has_elem_link | apply has_elem_alloc ].
  - intros r' e' Hr'.
    repeat first [ apply has_elem_link | apply has_elem_alloc ]. exact Hr'.
Qed.

(** What [display_map] builds when both bounds are supplied: [lats] and
    [lons] are the grid samples, empty when no resolution is given. *)
Lemma display_map_run (latitude longitude : R * R) resolution (s : store)
    (lats lons : list R) (zlat zlon : Z) :
  _degree_to_zoom_level (fst latitude) (snd latitude) (-0.5) = Ok zlat ->
  _degree_to_zoom_level (fst longitude) (snd longitude) (-0.5) = Ok zlon ->
  match resolution with
  | Some (res_lat, res_lon) =>
      arange (fst latitude) (snd latitude) (Rabs res_lat) = Ok lats /\
      arange (fst longitude) (snd longitude) (Rabs res_lon) = Ok lons
  | None => lats = [] /\ lons = []
  end ->
  exists s',
    display_map (Some latitude) (Some longitude) resolution s = (Ok (length s), s') /\
    attached s' (length s)
      (Map None [np_mean latitude; np_mean longitude] (Z.min (zlat + 0) (zlon + 0)))
      (esri_group ::
       map (fun x => grid_line [[fst latitude; x]; [snd latitude; x]]) lons ++
       map (fun y => grid_line [[y; fst longitude]; [y; snd longitude]]) lats ++
       [outline latitude longitude; LatLngPopup]).
Proof.
  intros Hlat Hlon Hgrid. unfold display_map. cbn [assert_not_None].
  rewrite !run_ret.
  rewrite (run_lift _ (zlat + 0)%Z) by now rewrite Hlat.
  rewrite (run_lift _ (zlon + 0)%Z) by now rewrite Hlon.
  cbv zeta. rewrite run_new.
  set (m := length s). set (e := Map _ _ _).
  pose proof (attached_fresh s e) as Hm. fold m in Hm.
  set (s1 := s ++ [mkObject e []]) in *.
  destruct (run_esri_group s1 m e [] Hm) as (s2 & Hg & H2 & _). rewrite Hg.
  cbn [app] in H2.
  assert (exists s3,
    (forall k : unit -> M ref,
      (x <- match resolution with
            | Some (res_lat, res_lon) =>
                lats0 <- lift (arange (fst latitude) (snd latitude) (Rabs res_lat)) ;;
                lons0 <- lift (arange (fst longitude) (snd longitude) (Rabs res_lon)) ;;
                for_each (map (fun x => [[fst (fst x); snd x]; [snd (fst x); snd x]])
                              (product [latitude] lons0))
                  (fun segment => p <- new (PolyLine segment "white" 0.3) ;; add_to p m) ;;
                for_each (map (fun x => [[snd x; fst (fst x)]; [snd x; snd (fst x)]])
                              (product [longitude] lats0))
                  (fun segment => p <- new (PolyLine segment "white" 0.3) ;; add_to p m)
            | None => ret tt
            end ;; k x) s2 = k tt s3) /\
    attached s3 m e
      ([esri_group] ++
       map (fun x => grid_line [[fst latitude; x]; [snd latitude; x]]) lons ++
       map (fun y => grid_line [[y; fst longitude]; [y; snd longitude]]) lats))
    as (s3 & Hrun & H3).
  { destruct resolution as [[res_lat res_lon] | ].
    - destruct Hgrid as [Elat Elon].
      destruct (for_each_attach grid_line
                  (map (fun x => [[fst (fst x); snd x]; [snd (fst x); snd x]])
                       (product [latitude] lons)) _ _ _ _ H2)
        as (sv & Hv & Hav & _).
      destruct (for_each_attach grid_line
                  (map (fun x => [[snd x; fst (fst x)]; [snd x; snd (fst x)]])
                       (product [longitude] lats)) _ _ _ _ Hav)
        as (sh & Hh & Hah & _).
      exists sh. split.
      + intros k. rewrite run_assoc, (run_lift _ lats) by exact Elat.
        rewrite run_assoc, (run_lift _ lons) by exact Elon.
        rewrite run_assoc. rewrite (run_seq _ _ _ tt sv) by exact Hv.
        now rewrite (run_seq _ _ _ tt sh) by exact Hh.
      + unfold product in Hah. cbn [flat_map] in Hah.
        rewrite !app_nil_r, !map_map in Hah. cbn [fst snd] in Hah.
        now rewrite <- app_assoc in Hah.
    - destruct Hgrid as [-> ->]. exists s2. split; [ reflexivity | ].
      cbn [map]. now rewrite !app_nil_r. }
  rewrite Hrun, run_new, run_add_child, run_new, run_add_child.
  eexists. split; [ reflexivity | ].
  match goal with
  | |- attached _ _ _ ?l =>
      replace l with
        ((([esri_group] ++
           map (fun x => grid_line [[fst latitude; x]; [snd latitude; x]]) lons ++
           map (fun y => grid_line [[y; fst longitude]; [y; snd longitude]]) lats)
          ++ [outline latitude longitude]) ++ [LatLngPopup])
        by (cbn [app]; now rewrite <- !app_assoc)
  end.
  apply attached_link;
    [ apply attached_alloc, attached_link; [ now apply attached_alloc | ] | ];
    repeat first [ apply has_elem_fresh | apply has_elem_link | apply has_elem_alloc ].
Qed.

(** C2.  With both bounds supplied and a usable grid step, [display_map]
    returns a new map whose centre is the arithmetic mean of each bounds
    pair and whose zoom level is the smaller of the two axis estimates,
    each taken with margin -0.5 and bias 0. *)
Theorem display_map_center_and_zoom (latitude longitude : R * R)
    (resolution : option (R * R)) (s : store) :
  grid_step_ok resolution ->
  exists (zlat zlon : Z) (cs : list ref) (s' : store),
    _degree_to_zoom_level (fst latitude) (snd latitude) (-0.5) = Ok zlat /\
    _degree_to_zoom_level (fst longitude) (snd longitude) (-0.5) = Ok zlon /\
    display_map (Some latitude) (Some longitude) resolution s = (Ok (length s), s') /\
    s' !! length s =
      Some (mkObject
              (Map None
                   [(fst latitude + snd latitude) / 2;
                    (fst longitude + snd longitude) / 2]
                   (Z.min (zlat + 0) (zlon + 0)))
              cs).
Proof.
  intros Hres.
  destruct (zoom_half_margin (fst latitude) (snd latitude)) as [zlat Hlat].
  destruct (zoom_half_margin (fst longitude) (snd longitude)) as [zlon Hlon].
  assert (exists lats lons,
    match resolution with
    | Some (res_lat, res_lon) =>
        arange (fst latitude) (snd latitude) (Rabs res_lat) = Ok lats /\
        arange (fst longitude) (snd longitude) (Rabs res_lon) = Ok lons
    | None => lats = [] /\ lons = []
    end) as (lats & lons & Hgrid).
  { destruct resolution as [[res_lat res_lon] | ]; [ | now exists [], [] ].
    destruct Hres as [H1 H2].
    destruct (arange_ok (fst latitude) (snd latitude) res_lat H1) as [lats E1].
    destruct (arange_ok (fst longitude) (snd longitude) res_lon H2) as [lons E2].
    now exists lats, lons. }
  destruct (display_map_run latitude longitude resolution s lats lons zlat zlon
              Hlat Hlon Hgrid) as (s' & Hrun & cs & Hcs & _).
  exists zlat, zlon, cs, s'. auto.
Qed.

Lemma display_map_center_and_zoom_witness :
  exists (zlat zlon : Z) (cs : list ref) (s' : store),
    _degree_to_zoom_level 0 180 (-0.5) = Ok zlat /\
    _degree_to_zoom_level 0 360 (-0.5) = Ok zlon /\
    display_map (Some (0, 180)) (Some (0, 360)) None [] = (Ok 0%nat, s') /\
    s' !! 0%nat =
      Some (mkObject (Map None [(0 + 180) / 2; (0 + 360) / 2]
                          (Z.min (zlat + 0) (zlon + 0))) cs).
Proof. apply (display_map_center_and_zoom (0, 180) (0, 360) None []). exact I. Defined.

(** C6.  Without the latitude bounds or without the longitude bounds
    [display_map] fails its assertion and leaves the store as it was: no
    map, nor any other element, has been constructed. *)
Theorem display_map_missing_bounds (latitude longitude resolution : option (R * R))
    (s : store) :
  latitude = None \/ longitude = None ->
  display_map latitude longitude resolution s = (Raise AssertionError, s).
Proof.
  intros [-> | ->]; [ reflexivity | ].
  destruct latitude; reflexivity.
Qed.

Lemma display_map_missing_bounds_witness :
  display_map None (Some (0, 1)) None [] = (Raise AssertionError, []) /\
  display_map (Some (0, 1)) None None [] = (Raise AssertionError, []).
Proof.
  split.
  - apply display_map_missing_bounds. now left.
  - apply display_map_missing_bounds. now right.
Defined.

(** The elements [display_map] draws, in order: the imagery group, one
    vertical line per longitude sample, one horizontal line per latitude
    sample, the outline and the popup.  The samples start at the first
    component of each bounds pair. *)
Lemma display_map_drawn (latitude longitude : R * R) (res_lat res_lon : R)
    (s : store) (n_lat n_lon : nat) :
  res_lat <> 0 -> res_lon <> 0 ->
  n_lat = Z.to_nat (Zceil ((snd latitude - fst latitude) / Rabs res_lat)) ->
  n_lon = Z.to_nat (Zceil ((snd longitude - fst longitude) / Rabs res_lon)) ->
  exists s',
    display_map (Some latitude) (Some longitude) (Some (res_lat, res_lon)) s =
      (Ok (length s), s') /\
    drawn_on s' (length s) =
      esri_group ::
      map (fun i => grid_line [[fst latitude; fst longitude + INR i * Rabs res_lon];
                               [snd latitude; fst longitude + INR i * Rabs res_lon]])
          (seq 0 n_lon) ++
      map (fun i => grid_line [[fst latitude + INR i * Rabs res_lat; fst longitude];
                               [fst latitude + INR i * Rabs res_lat; snd longitude]])
          (seq 0 n_lat) ++
      [outline latitude longitude; LatLngPopup].
Proof.
  intros H1 H2 -> ->.
  destruct (zoom_half_margin (fst latitude) (snd latitude)) as [zlat Hlat].
  destruct (zoom_half_margin (fst longitude) (snd longitude)) as [zlon Hlon].
  edestruct (display_map_run latitude longitude (Some (res_lat, res_lon)) s)
    as (s' & Hrun & Hatt); [ exact Hlat | exact Hlon | | ].
  { unfold arange.
    destruct (Req_dec_T (Rabs res_lat) 0) as [E | _];
      [ now apply Rabs_no_R0 in E | ].
    destruct (Req_dec_T (Rabs res_lon) 0) as [E | _];
      [ now apply Rabs_no_R0 in E | ].
    split; reflexivity. }
  exists s'. split; [ exact Hrun | ].
  apply attached_drawn_on in Hatt. rewrite Hatt, !map_map. reflexivity.
Qed.

Lemma display_map_drawn_without_resolution (latitude longitude : R * R) (s : store) :
  exists s',
    display_map (Some latitude) (Some longitude) None s = (Ok (length s), s') /\
    drawn_on s' (length s) = [esri_group; outline latitude longitude; LatLngPopup].
Proof.
  destruct (zoom_half_margin (fst latitude) (snd latitude)) as [zlat Hlat].
  destruct (zoom_half_margin (fst longitude) (snd longitude)) as [zlon Hlon].
  destruct (display_map_run latitude longitude None s [] [] zlat zlon Hlat Hlon)
    as (s' & Hrun & Hatt); [ now split | ].
  exists s'. split; [ exact Hrun | ]. now apply attached_drawn_on in Hatt.
Qed.

(** A zero grid spacing is rejected by [np.arange]: no map is returned,
    but the map and its imagery group have been constructed by then. *)
Lemma display_map_zero_step (latitude longitude : R * R) (res_lat res_lon : R)
    (s : store) :
  res_lat = 0 \/ res_lon = 0 ->
  exists s',
    display_map (Some latitude) (Some longitude) (Some (res_lat, res_lon)) s =
      (Raise ZeroDivisionError, s') /\
    (length s < length s')%nat.
Proof.
  intros Hz.
  destruct (zoom_half_margin (fst latitude) (snd latitude)) as [zlat Hlat].
  destruct (zoom_half_margin (fst longitude) (snd longitude)) as [zlon Hlon].
  unfold display_map. cbn [assert_not_None]. rewrite !run_ret.
  rewrite (run_lift _ (zlat + 0)%Z) by now rewrite Hlat.
  rewrite (run_lift _ (zlon + 0)%Z) by now rewrite Hlon.
  cbv zeta. rewrite run_new.
  match goal with
  | |- context [ s ++ [mkObject ?e []] ] =>
      destruct (run_esri_group _ _ _ _ (attached_fresh s e)) as (s2 & Hg & H2 & _)
  end.
  apply attached_lt in H2.
  rewrite Hg. exists s2. split; [ | exact H2 ]. rewrite run_assoc.
  assert (Hraise : forall start stop,
             arange start stop (Rabs 0) = Raise ZeroDivisionError).
  { intros. unfold arange. rewrite Rabs_R0.
    destruct (Req_dec_T 0 0); [ reflexivity | contradiction ]. }
  destruct (Req_dec_T res_lat 0) as [-> | Hlat0].
  - now rewrite (run_lift_raise _ ZeroDivisionError) by apply Hraise.
  - destruct Hz as [-> | ->]; [ contradiction | ].
    destruct (arange_ok (fst latitude) (snd latitude) res_lat Hlat0) as [lats El].
    rewrite (run_lift _ lats) by exact El.
    rewrite run_assoc.
    now rewrite (run_lift_raise _ ZeroDivisionError) by apply Hraise.
Qed.

(** C8, evaluated where the claim fails.  With latitude (0, 1), longitude
    (10, 11) and resolution (0.4, 0.5) the horizontal lines lie at latitudes
    0, 0.4 and 0.8: they start at the first latitude bound, the bottom
    edge of a (min, max) pair, and none lies on the top edge, latitude 1. *)
Theorem display_map_grid_starts_at_first_bounds :
  exists s',
    display_map (Some (0, 1)) (Some (10, 11)) (Some (0.4, 0.5)) [] = (Ok 0%nat, s') /\
    drawn_on s' 0%nat =
      [ esri_group;
        grid_line [[0; 10]; [1; 10]];
        grid_line [[0; 10.5]; [1; 10.5]];
        grid_line [[0; 10]; [0; 11]];
        grid_line [[0.4; 10]; [0.4; 11]];
        grid_line [[0.8; 10]; [0.8; 11]];
        outline (0, 1) (10, 11);
        LatLngPopup ].
Proof.
  assert (A4 : Rabs 0.4 = 0.4) by solve_abs.
  assert (A5 : Rabs 0.5 = 0.5) by solve_abs.
  destruct (display_map_drawn (0, 1) (10, 11) 0.4 0.5 [] 3 2) as (s' & Hrun & Hd).
  - lra.
  - lra.
  - cbn [fst snd]. rewrite A4, (Zceil_eq 3); [ reflexivity | ]. simpl. lra.
  - cbn [fst snd]. rewrite A5, (Zceil_eq 2); [ reflexivity | ]. simpl. lra.
  - cbn [length] in Hrun, Hd. exists s'. split; [ exact Hrun | ].
    rewrite Hd, A4, A5. cbn [fst snd map seq app].
    unfold grid_line. repeat f_equal; simpl; lra.
Qed.

(** ** Labels, first-seen order and the colour dictionary *)

Section Labels.

Implicit Types (x y k : cell) (l seen labels : list cell) (d : dict).

Lemma cell_eqb_eq x y : cell_eqb x y = true <-> x = y.
Proof.
  destruct x as [a | a], y as [b | b]; cbn; try (split; discriminate).
  - destruct (Req_dec_T a b) as [-> | N]; split; try reflexivity; try discriminate.
    intros [= E]. contradiction.
  - rewrite String.eqb_eq. split; [ now intros -> | now intros [= ->] ].
Qed.

Lemma cell_eqb_refl x : cell_eqb x x = true.
Proof. now apply cell_eqb_eq. Qed.

Lemma cell_eqb_neq x y : x <> y -> cell_eqb x y = false.
Proof.
  intros N. destruct (cell_eqb x y) eqn:E; [ | reflexivity ].
  now apply cell_eqb_eq in E.
Qed.

Lemma seen_spec x seen : existsb (cell_eqb x) seen = true <-> In x seen.
Proof.
  rewrite existsb_exists. split.
  - intros (y & Hy & E). apply cell_eqb_eq in E. now subst.
  - intros H. exists x. split; [ exact H | apply cell_eqb_refl ].
Qed.

Lemma unique_from_In x seen l :
  In x (unique_from seen l) <-> In x l /\ ~ In x seen.
Proof.
  revert seen. induction l as [ | y l IH ]; intros seen; cbn.
  - tauto.
  - destruct (existsb (cell_eqb y) seen) eqn:E.
    + apply seen_spec in E. rewrite IH. split.
      * tauto.
      * intros [[-> | H] N]; [ contradiction | tauto ].
    + assert (Hy : ~ In y seen) by (rewrite <- seen_spec, E; discriminate).
      cbn. rewrite IH. cbn. split.
      * intros [-> | [H N]]; [ tauto | tauto ].
      * intros [[-> | H] N]; [ now left | ].
        destruct (cell_eqb y x) eqn:Eyx.
        -- apply cell_eqb_eq in Eyx. now left.
        -- right. split; [ exact H | ]. intros [-> | Hs]; [ | contradiction ].
           now rewrite cell_eqb_refl in Eyx.
Qed.

Lemma unique_from_NoDup seen l : List.NoDup (unique_from seen l).
Proof.
  revert seen. induction l as [ | y l IH ]; intros seen; cbn.
  - constructor.
  - destruct (existsb (cell_eqb y) seen); [ apply IH | ].
    constructor; [ | apply IH ].
    rewrite unique_from_In. cbn. tauto.
Qed.

Lemma pd_unique_In x l : In x (pd_unique l) <-> In x l.
Proof. unfold pd_unique. rewrite unique_from_In. cbn. tauto. Qed.

Lemma pd_unique_NoDup l : List.NoDup (pd_unique l).
Proof. apply unique_from_NoDup. Qed.

Lemma list_index_In x labels :
  In x labels ->
  exists i, list_index labels x = Ok i /\ labels !! i = Some x.
Proof.
  induction labels as [ | y labels IH ]; intros H; [ contradiction | ].
  cbn. destruct (cell_eqb y x) eqn:E.
  - apply cell_eqb_eq in E. subst. now exists 0%nat.
  - destruct H as [-> | H]; [ now rewrite cell_eqb_refl in E | ].
    destruct (IH H) as (i & Hi & Hl). exists (S i). rewrite Hi. now split.
Qed.

Lemma dict_set_fresh d k v :
  ~ In k (map fst d) -> dict_set d k v = d ++ [(k, v)].
Proof.
  induction d as [ | [k' v'] d IH ]; intros N; cbn; [ reflexivity | ].
  cbn in N. rewrite cell_eqb_neq by tauto. rewrite IH by tauto. reflexivity.
Qed.

Lemma dict_of_fresh (pairs acc : list (cell * string)) :
  List.NoDup (map fst acc ++ map fst pairs) ->
  fold_left (fun d kv => dict_set d (fst kv) (snd kv)) pairs acc = acc ++ pairs.
Proof.
  revert acc. induction pairs as [ | [k v] pairs IH ]; intros acc N; cbn.
  - now rewrite app_nil_r.
  - cbn in N. rewrite dict_set_fresh.
    + rewrite IH; [ now rewrite <- app_assoc | ].
      rewrite map_app. cbn. now rewrite <- app_assoc.
    + apply List.NoDup_remove_2 in N. intros Hin. apply N, in_or_app. now left.
Qed.

Lemma combine_keys_NoDup (labels : list cell) (vs : list string) :
  List.NoDup labels -> List.NoDup (map fst (combine labels vs)).
Proof.
  intros N. revert vs. induction N as [ | k labels Hk N IH ]; intros vs; cbn.
  - constructor.
  - destruct vs as [ | v vs ]; cbn; constructor; [ | apply IH ].
    intros Hin. apply Hk. apply in_map_iff in Hin as ([k' v'] & <- & Hin).
    now apply in_combine_l in Hin.
Qed.

(** With distinct labels the dictionary is the zip itself. *)
Lemma dict_of_combine (labels : list cell) (vs : list string) :
  List.NoDup labels -> dict_of (combine labels vs) = combine labels vs.
Proof.
  intros N. unfold dict_of. rewrite dict_of_fresh; [ reflexivity | ].
  now apply combine_keys_NoDup.
Qed.

Lemma dict_get_combine (labels : list cell) (vs : list string) k i v :
  list_index labels k = Ok i -> vs !! i = Some v ->
  dict_get (combine labels vs) k = Ok v.
Proof.
  revert vs i. induction labels as [ | y labels IH ]; intros vs i; cbn;
    [ discriminate | ].
  destruct vs as [ | v0 vs ]; [ now destruct (cell_eqb y k), i | ].
  cbn. destruct (cell_eqb y k).
  - intros [= <-]. now intros [= ->].
  - destruct (list_index labels k) as [j | ] eqn:E; cbn; [ | discriminate ].
    intros [= <-]. cbn. now apply IH.
Qed.

End Labels.

(** ** The grouped-point composer *)

Section Grouped.

Variable group_name : string.

Lemma df_getitem_rows (data_frame : list row) (col : list cell) :
  df_getitem data_frame group_name = Ok col ->
  Forall2 (fun r c => row_getitem r group_name = Ok c) data_frame col.
Proof.
  revert col. induction data_frame as [ | r rest IH ]; intros col; cbn.
  - intros [= <-]. constructor.
  - destruct (row_getitem r group_name) as [c | ] eqn:Er; cbn; [ | discriminate ].
    destruct (df_getitem rest group_name) as [cs | ]; cbn; [ | discriminate ].
    intros [= <-]. constructor; auto.
Qed.

Lemma label_colors_ok (data_frame : list row) (col : list cell) :
  df_getitem data_frame group_name = Ok col ->
  (length (pd_unique col) <= 128)%nat ->
  label_colors data_frame group_name =
  Ok (pd_unique col,
      combine (pd_unique col) (firstn (length (pd_unique col)) colors)).
Proof.
  intros Hcol Hlen. unfold label_colors. rewrite Hcol. cbn [rbind].
  rewrite enough_colors by lia. cbn [rbind]. unfold slice_to.
  destruct (Z.ltb_spec (Z.of_nat (length (pd_unique col))) 0); [ lia | ].
  rewrite Nat2Z.id, dict_of_combine by apply pd_unique_NoDup. reflexivity.
Qed.

(** The marker loop, started at row [length pre]. *)
Lemma pins_loop (data_frame : list row) (labels : list cell) (cd : dict)
    (m : ref) (e : element) (rest : list row) :
  forall (pre : list row) (markers : list element) (s : store) (es : list element),
    data_frame = pre ++ rest ->
    Forall2 (fun r mk =>
               exists lbl i c,
                 row_getitem r group_name = Ok lbl /\
                 list_index labels lbl = Ok i /\
                 dict_get cd lbl = Ok c /\
                 mk = pin r lbl c) rest markers ->
    attached s m e es ->
    exists s',
      for_each (seq (length pre) (length rest))
        (fun i =>
           r <- lift (iloc data_frame i) ;;
           land_cover <- lift (row_getitem r group_name) ;;
           index <- lift (list_index labels land_cover) ;;
           _color <- lift (dict_get cd land_cover) ;;
           p <- new (CircleMarker [Latitude r; Longitude r] 5 land_cover
                                  _color true _color) ;;
           add_to p m) s = (Ok tt, s') /\
      attached s' m e (es ++ markers).
Proof.
  induction rest as [ | r rest IH ]; intros pre markers s es Hdf HF Hatt.
  - inversion HF; subst. exists s. cbn. rewrite app_nil_r. auto.
  - inversion HF as [ | r' mk rest' markers' (lbl & i & c & Hl & Hi & Hc & ->) HF' ];
      subst.
    cbn [length seq for_each].
    rewrite run_assoc, (run_lift _ r)
      by (unfold iloc; now rewrite list_lookup_middle).
    rewrite run_assoc, (run_lift _ lbl) by exact Hl.
    rewrite run_assoc, (run_lift _ i) by exact Hi.
    rewrite run_assoc, (run_lift _ c) by exact Hc.
    rewrite run_assoc, run_new. unfold add_to. rewrite run_add_child.
    destruct (IH (pre ++ [r]) markers'
                 (alter (with_child (length s)) m
                        (s ++ [mkObject (pin r lbl c) []]))
                 (es ++ [pin r lbl c])) as (s' & Hrun & Hs').
    + now rewrite <- app_assoc.
    + exact HF'.
    + apply attached_link; [ now apply attached_alloc | apply has_elem_fresh ].
    + exists s'. rewrite length_app, Nat.add_1_r in Hrun.
      split; [ exact Hrun | ]. now rewrite <- app_assoc in Hs'.
Qed.

Lemma series_ok (l : list R) :
  l <> [] ->
  exists mean lo hi,
    series_mean l = Ok mean /\ series_min l = Ok lo /\ series_max l = Ok hi.
Proof. destruct l; [ contradiction | ]. cbn. eauto 7. Qed.

Lemma zoom_zero_margin (a b : R) :
  exists z : Z, _degree_to_zoom_level a b 0.0 = Ok z.
Proof.
  pose proof (Rabs_pos (a - b)) as [Hpos | Hz].
  - eexists. apply zoom_positive_span. lra.
  - exists 18%Z. apply zoom_zero_span. rewrite <- Hz. lra.
Qed.

(** Every row gets a marker whose colour is the palette entry at the
    position of the row's label among the labels. *)
Lemma markers_exist (col : list cell) (rows : list row) (sub : list cell) :
  (length (pd_unique col) <= 128)%nat ->
  Forall2 (fun r c => row_getitem r group_name = Ok c) rows sub ->
  (forall c, In c sub -> In c col) ->
  exists markers,
    Forall2 (fun r mk =>
               exists lbl i c,
                 row_getitem r group_name = Ok lbl /\
                 list_index (pd_unique col) lbl = Ok i /\
                 pd_unique col !! i = Some lbl /\
                 colors !! i = Some c /\
                 dict_get (combine (pd_unique col)
                                   (firstn (length (pd_unique col)) colors)) lbl = Ok c /\
                 mk = pin r lbl c) rows markers.
Proof.
  intros Hlen HF. induction HF as [ | r lbl rows sub Hr HF IH ]; intros Hsub.
  - exists []. constructor.
  - destruct IH as [markers IH]; [ intros; apply Hsub; now right | ].
    destruct (list_index_In lbl (pd_unique col)) as (i & Hi & Hl).
    { apply pd_unique_In, Hsub. now left. }
    pose proof (lookup_lt_Some _ _ _ Hl) as Hlt.
    destruct (lookup_lt_is_Some_2 colors i) as [c Hc];
      [ rewrite colors_length; lia | ].
    exists (pin r lbl c :: markers). constructor; [ | exact IH ].
    exists lbl, i, c. repeat split; try assumption.
    eapply dict_get_combine; [ exact Hi | ].
    now rewrite lookup_take_lt.
Qed.

(** What the composer builds on a non-empty frame whose group column
    exists and has at most 128 distinct values. *)
Lemma grouped_pins (data_frame : list row) (folium_map : option ref)
    (s : store) (col : list cell) (e0 : element) (es0 : list element) :
  data_frame <> [] ->
  df_getitem data_frame group_name = Ok col ->
  (length (pd_unique col) <= 128)%nat ->
  match folium_map with Some m0 => attached s m0 e0 es0 | None => True end ->
  exists (s' : store) (markers : list element),
    let m := match folium_map with Some m0 => m0 | None => length s end in
    display_grouped_pandas_rows_as_pins data_frame group_name folium_map s =
      (Ok m, s') /\
    drawn_on s' m =
      match folium_map with Some _ => es0 | None => [esri_group] end
      ++ markers ++ [LatLngPopup] /\
    Forall2 (fun r mk =>
               exists lbl i c,
                 row_getitem r group_name = Ok lbl /\
                 pd_unique col !! i = Some lbl /\
                 colors !! i = Some c /\
                 dict_get (combine (pd_unique col)
                                   (firstn (length (pd_unique col)) colors)) lbl = Ok c /\
                 mk = pin r lbl c) data_frame markers.
Proof.
  intros Hne Hcol Hlen Hmap.
  destruct (markers_exist col data_frame col Hlen (df_getitem_rows _ _ Hcol))
    as [markers HM]; [ trivial | ].
  destruct (series_ok (map Latitude data_frame))
    as (lat_mean & lat_min & lat_max & Emean & Emin & Emax);
    [ now destruct data_frame | ].
  destruct (series_ok (map Longitude data_frame)) as (lon_mean & _ & _ & Elon & _ & _);
    [ now destruct data_frame | ].
  destruct (zoom_zero_margin lat_min lat_max) as [z Hz].
  set (labels := pd_unique col) in *.
  set (cd := combine labels (firstn (length labels) colors)) in *.
  assert (exists s1 e1 es1,
    let m := match folium_map with Some m0 => m0 | None => length s end in
    attached s1 m e1 es1 /\
    es1 = match folium_map with Some _ => es0 | None => [esri_group] end /\
    display_grouped_pandas_rows_as_pins data_frame group_name folium_map s =
      (for_each (seq 0 (length data_frame))
         (fun i =>
            r <- lift (iloc data_frame i) ;;
            land_cover <- lift (row_getitem r group_name) ;;
            index <- lift (list_index labels land_cover) ;;
            _color <- lift (dict_get cd land_cover) ;;
            p <- new (CircleMarker [Latitude r; Longitude r] 5 land_cover
                                   _color true _color) ;;
            add_to p m) ;;
       popup <- new LatLngPopup ;;
       add_child m popup ;;
       ret m) s1) as (s1 & e1 & es1 & Hatt & Hes & Hrun).
  { unfold display_grouped_pandas_rows_as_pins.
    rewrite (run_lift _ lat_mean) by exact Emean.
    rewrite (run_lift _ lon_mean) by exact Elon.
    rewrite (run_lift _ lat_min) by exact Emin.
    rewrite (run_lift _ lat_max) by exact Emax.
    rewrite (run_lift _ z) by exact Hz.
    rewrite (run_lift _ (labels, cd)) by now apply label_colors_ok.
    cbn [fst snd].
    destruct folium_map as [m0 | ].
    - exists s, e0, es0. rewrite run_ret. auto.
    - rewrite run_assoc, run_new.
      pose proof (attached_fresh s (Map None [lat_mean; lon_mean] z)) as Hm.
      destruct (run_esri_group _ _ _ _ Hm) as (s2 & Hg & H2 & _).
      exists s2, (Map None [lat_mean; lon_mean] z), [esri_group].
      split; [ exact H2 | ]. split; [ reflexivity | ].
      now rewrite (run_seq _ _ _ (length s) s2) by (now rewrite Hg). }
  cbv zeta in *.
  set (m := match folium_map with Some m0 => m0 | None => length s end) in *.
  destruct (pins_loop data_frame labels cd m e1 data_frame [] markers s1 es1)
    as (s2 & Hloop & H2); [ reflexivity | | exact Hatt | ].
  { eapply Forall2_impl; [ exact HM | ].
    intros r mk (lbl & i & c & ? & ? & ? & ? & ? & ?). now exists lbl, i, c. }
  cbn [length] in Hloop.
  exists (alter (with_child (length s2)) m (s2 ++ [mkObject LatLngPopup []])), markers.
  split; [ | split ].
  - rewrite Hrun, (run_seq _ _ _ tt s2) by exact Hloop.
    now rewrite run_new, run_add_child.
  - rewrite <- Hes, app_assoc. apply attached_drawn_on with (e := e1).
    apply attached_link; [ now apply attached_alloc | apply has_elem_fresh ].
  - eapply Forall2_impl; [ exact HM | ].
    intros r mk (lbl & i & c & ? & ? & ? & ? & ? & ?). now exists lbl, i, c.
Qed.

End Grouped.

Lemma pd_unique_aba (a b : cell) : a <> b -> pd_unique [a; b; a] = [a; b].
Proof.
  intros N. unfold pd_unique. cbn.
  rewrite (cell_eqb_neq b a) by congruence.
  cbn. rewrite (cell_eqb_neq a b), cell_eqb_refl by assumption. reflexivity.
Qed.

(** C7.  The label-to-colour map zips the distinct group values, in
    first-seen order, with the palette prefix of the same length, and the
    composer adds one marker per row, in row order, whose stroke and fill
    colour is the palette entry at the position of the row's group value.
    For three rows labelled a, b, a the map is a -> palette[0],
    b -> palette[1], and the three markers are coloured palette[0],
    palette[1], palette[0]. *)
Theorem grouped_pins_colored_by_label :
  (forall (data_frame : list row) (group_name : string) (folium_map : option ref)
          (s : store) (col : list cell) (e0 : element) (es0 : list element),
      data_frame <> [] ->
      df_getitem data_frame group_name = Ok col ->
      (length (pd_unique col) <= 128)%nat ->
      match folium_map with Some m0 => attached s m0 e0 es0 | None => True end ->
      let labels := pd_unique col in
      let m := match folium_map with Some m0 => m0 | None => length s end in
      label_colors data_frame group_name =
        Ok (labels, combine labels (firstn (length labels) colors)) /\
      exists (s' : store) (markers : list element),
        display_grouped_pandas_rows_as_pins data_frame group_name folium_map s =
          (Ok m, s') /\
        drawn_on s' m =
          match folium_map with Some _ => es0 | None => [esri_group] end
          ++ markers ++ [LatLngPopup] /\
        Forall2 (fun r mk =>
                   exists lbl i c,
                     row_getitem r group_name = Ok lbl /\
                     labels !! i = Some lbl /\
                     colors !! i = Some c /\
                     dict_get (combine labels (firstn (length labels) colors)) lbl
                       = Ok c /\
                     mk = pin r lbl c) data_frame markers) /\
  (forall (group_name : string) (a b : cell) (r1 r2 r3 : row) (s : store),
      a <> b ->
      row_getitem r1 group_name = Ok a ->
      row_getitem r2 group_name = Ok b ->
      row_getitem r3 group_name = Ok a ->
      label_colors [r1; r2; r3] group_name =
        Ok ([a; b], [(a, "#000000"%string); (b, "#FFFF00"%string)]) /\
      exists s' : store,
        display_grouped_pandas_rows_as_pins [r1; r2; r3] group_name None s =
          (Ok (length s), s') /\
        drawn_on s' (length s) =
          [ esri_group;
            pin r1 a "#000000"; pin r2 b "#FFFF00"; pin r3 a "#000000";
            LatLngPopup ]).
Proof.
  split.
  - intros data_frame group_name folium_map s col e0 es0 Hne Hcol Hlen Hmap labels m.
    split; [ now apply label_colors_ok | ].
    destruct (grouped_pins group_name data_frame folium_map s col e0 es0
                Hne Hcol Hlen Hmap) as (s' & markers & H).
    now exists s', markers.
  - intros group_name a b r1 r2 r3 s N H1 H2 H3.
    assert (Hcol : df_getitem [r1; r2; r3] group_name = Ok [a; b; a])
      by (cbn; now rewrite H1, H2, H3).
    pose proof (pd_unique_aba a b N) as Hu.
    assert (Hlen : (length (pd_unique [a; b; a]) <= 128)%nat)
      by (rewrite Hu; cbn; lia).
    split.
    + rewrite (label_colors_ok group_name _ _ Hcol Hlen), Hu. reflexivity.
    + destruct (grouped_pins group_name [r1; r2; r3] None s [a; b; a]
                  LatLngPopup [] ltac:(discriminate) Hcol Hlen I)
        as (s' & markers & Hrun & Hd & HF).
      exists s'. split; [ exact Hrun | ]. cbv zeta in Hd. rewrite Hd, Hu in *.
      assert (Hpin : forall r x mk,
                 row_getitem r group_name = Ok x ->
                 (exists lbl i c,
                     row_getitem r group_name = Ok lbl /\
                     [a; b] !! i = Some lbl /\
                     colors !! i = Some c /\
                     dict_get (combine [a; b] (firstn (length [a; b]) colors)) lbl
                       = Ok c /\
                     mk = pin r lbl c) ->
                 (x = a -> mk = pin r a "#000000") /\
                 (x = b -> mk = pin r b "#FFFF00")).
      { intros r x mk Hx (lbl & i & c & Hl & Hi & Hc & _ & ->).
        rewrite Hx in Hl. injection Hl as <-.
        destruct i as [ | [ | i ] ]; cbn in Hi; try discriminate;
          injection Hi as <-; cbn in Hc; injection Hc as <-;
          split; intros E; try reflexivity; congruence. }
      inversion HF as [ | ? mk1 ? ms1 P1 HF1 ]; subst.
      inversion HF1 as [ | ? mk2 ? ms2 P2 HF2 ]; subst.
      inversion HF2 as [ | ? mk3 ? ms3 P3 HF3 ]; subst.
      inversion HF3; subst.
      rewrite (proj1 (Hpin r1 a mk1 H1 P1) eq_refl).
      rewrite (proj2 (Hpin r2 b mk2 H2 P2) eq_refl).
      rewrite (proj1 (Hpin r3 a mk3 H3 P3) eq_refl).
      reflexivity.
Qed.

Lemma grouped_pins_colored_by_label_witness :
  let A := CStr "A" in
  let B := CStr "B" in
  let r1 := mkRow 10 20 [("LandUse"%string, A)] in
  let r2 := mkRow 11 21 [("LandUse"%string, B)] in
  let r3 := mkRow 12 22 [("LandUse"%string, A)] in
  label_colors [r1; r2; r3] "LandUse" =
    Ok ([A; B], [(A, "#000000"%string); (B, "#FFFF00"%string)]) /\
  exists s' : store,
    display_grouped_pandas_rows_as_pins [r1; r2; r3] "LandUse" None [] =
      (Ok 0%nat, s') /\
    drawn_on s' 0%nat =
      [ esri_group;
        pin r1 A "#000000"; pin r2 B "#FFFF00"; pin r3 A "#000000";
        LatLngPopup ].
Proof.
  intros A B r1 r2 r3.
  apply (proj2 grouped_pins_colored_by_label "LandUse"%string A B r1 r2 r3 []);
    [ discriminate | reflexivity | reflexivity | reflexivity ].
Defined.

(** * Further properties *)

(** ** The zoom estimator: monotonicity *)




(** X3.  The level 18 returned for a zero span is not a ceiling: every
    positive span below [360 / 2^19] degrees gets a level of 19 or more. *)
Theorem zoom_level_exceeds_zero_span_level (l1 l2 margin : R) :
  0 < Rabs (l1 - l2) * (1 + margin) < 360 / 2 ^ 19 ->
  exists z : Z,
    _degree_to_zoom_level l1 l2 margin = Ok z /\ (18 < z)%Z /\
    _degree_to_zoom_level l1 l1 margin = Ok 18%Z.
Proof.
  intros [Hd Hsmall]. set (d := Rabs (l1 - l2) * (1 + margin)) in *.
  eexists. split; [ now apply zoom_positive_span | ]. fold d. split.
  - assert (P : 0 < 2 ^ 19) by (apply pow_lt; lra).
    assert (E : log2_trunc (2 ^ 19) = 19%Z).
    { apply (log2_trunc_pow _ 19). simpl. lra. }
    assert (2 ^ 19 <= 360 / d).
    { assert (Hd' : 0 < / d) by now apply Rinv_0_lt_compat.
      apply Rmult_le_reg_r with d; [ assumption | ].
      replace (360 / d * d) with 360 by (field; lra).
      apply Rmult_lt_compat_r with (r := 2 ^ 19) in Hsmall; [ | assumption ].
      replace (360 / 2 ^ 19 * 2 ^ 19) with 360 in Hsmall by (field; lra). lra. }
    pose proof (log2_trunc_mono _ _ P H). lia.
  - apply zoom_zero_span. replace (l1 - l1) with 0 by lra. rewrite Rabs_R0. lra.
Qed.

Lemma zoom_level_exceeds_zero_span_level_witness :
  exists z : Z,
    _degree_to_zoom_level 0 (1 / 2 ^ 19) 0 = Ok z /\ (18 < z)%Z /\
    _degree_to_zoom_level 0 0 0 = Ok 18%Z.
Proof.
  apply (zoom_level_exceeds_zero_span_level 0 (1 / 2 ^ 19) 0).
  replace (Rabs (0 - 1 / 2 ^ 19)) with (1 / 2 ^ 19) by (simpl; solve_abs).
  simpl. lra.
Defined.

(** ** The colour palette: distinct, well formed, index stable *)

Lemma distinctb_NoDup (l : list string) : distinctb l = true -> NoDup l.
Proof.
  induction l as [ | x l IH ]; cbn; [ constructor | ].
  intros H. apply andb_true_iff in H as [Hx Hl]. constructor; [ | now apply IH ].
  intros Hin. apply negb_true_iff in Hx.
  assert (E : existsb (String.eqb x) l = true); [ | congruence ].
  apply existsb_exists. exists x. split; [ | apply String.eqb_refl ].
  now apply list_elem_of_In.
Qed.

Lemma colors_NoDup : NoDup colors.
Proof. apply distinctb_NoDup. vm_compute. reflexivity. Qed.

Lemma colors_hex : Forall (fun c => is_hex_color c = true) colors.
Proof.
  apply List.Forall_forall, (proj1 (forallb_forall is_hex_color colors)).
  vm_compute. reflexivity.
Qed.

(** X5.  For a count from 0 to 128 the generator returns exactly that
    many colours, pairwise distinct, each of the form [#RRGGBB]. *)
Theorem colors_distinct_and_well_formed (n : Z) :
  (0 <= n <= 128)%Z ->
  exists l : list string,
    generate_n_visually_distinct_colors n = Ok l /\
    length l = Z.to_nat n /\
    NoDup l /\
    Forall (fun c => is_hex_color c = true) l.
Proof.
  intros Hn. exists (firstn (Z.to_nat n) colors).
  rewrite enough_colors by lia. unfold slice_to.
  destruct (Z.ltb_spec n 0); [ lia | ].
  split; [ reflexivity | ]. split; [ | split ].
  - rewrite length_take, colors_length. lia.
  - eapply sublist_NoDup; [ apply colors_NoDup | apply sublist_take ].
  - apply Forall_take, colors_hex.
Qed.

Lemma colors_distinct_and_well_formed_witness :
  exists l : list string,
    generate_n_visually_distinct_colors 3 = Ok l /\
    length l = Z.to_nat 3 /\
    NoDup l /\
    Forall (fun c => is_hex_color c = true) l.
Proof. apply (colors_distinct_and_well_formed 3). lia. Defined.

(** X6.  Colours are index stable: a shorter request returns a prefix of
    a longer one, so the colour at a position does not depend on how many
    colours were asked for. *)
Theorem colors_index_stable (n m : Z) :
  (0 <= n <= m)%Z -> (m <= 128)%Z ->
  exists ln lm : list string,
    generate_n_visually_distinct_colors n = Ok ln /\
    generate_n_visually_distinct_colors m = Ok lm /\
    ln = firstn (Z.to_nat n) lm /\
    (forall i c, ln !! i = Some c -> lm !! i = Some c).
Proof.
  intros Hn Hm.
  exists (firstn (Z.to_nat n) colors), (firstn (Z.to_nat m) colors).
  rewrite !enough_colors by lia. unfold slice_to.
  destruct (Z.ltb_spec n 0); [ lia | ]. destruct (Z.ltb_spec m 0); [ lia | ].
  split; [ reflexivity | ]. split; [ reflexivity | ].
  assert (E : firstn (Z.to_nat n) colors =
              firstn (Z.to_nat n) (firstn (Z.to_nat m) colors)).
  { rewrite take_take. f_equal. lia. }
  split; [ exact E | ].
  intros i c Hi. rewrite E in Hi. apply lookup_take_Some in Hi. tauto.
Qed.

Lemma colors_index_stable_witness :
  exists ln lm : list string,
    generate_n_visually_distinct_colors 2 = Ok ln /\
    generate_n_visually_distinct_colors 5 = Ok lm /\
    ln = firstn (Z.to_nat 2) lm /\
    (forall i c, ln !! i = Some c -> lm !! i = Some c).
Proof. apply (colors_index_stable 2 5); lia. Defined.

(** X7.  A count of -128 or below does not fail either: the slice is
    clamped at the start of the palette and the result is empty. *)
Theorem colors_count_below_palette (n : Z) :
  (n <= -128)%Z -> generate_n_visually_distinct_colors n = Ok [].
Proof.
  intros Hn. rewrite enough_colors by lia. unfold slice_to.
  rewrite colors_length. destruct (Z.ltb_spec n 0); [ | lia ].
  replace (Z.to_nat (Z.max 0 (Z.of_nat 128 + n))) with 0%nat by lia.
  reflexivity.
Qed.

Lemma colors_count_below_palette_witness :
  generate_n_visually_distinct_colors (-500) = Ok [].
Proof. apply (colors_count_below_palette (-500)). lia. Defined.

(** ** The bounding-box composer: grid spacing and reversed bounds *)

(** X8.  A zero spacing on either axis makes [display_map] fail: no map
    is returned, although the map and its imagery group were already
    constructed when [np.arange] is reached. *)
Theorem display_map_rejects_zero_spacing (latitude longitude : R * R)
    (res_lat res_lon : R) (s : store) :
  res_lat = 0 \/ res_lon = 0 ->
  exists (x : exn) (s' : store),
    display_map (Some latitude) (Some longitude) (Some (res_lat, res_lon)) s =
      (Raise x, s') /\
    (length s < length s')%nat.
Proof.
  intros Hz.
  destruct (display_map_zero_step latitude longitude res_lat res_lon s Hz)
    as (s' & Hrun & Hlen).
  now exists ZeroDivisionError, s'.
Qed.

Lemma display_map_rejects_zero_spacing_witness :
  exists (x : exn) (s' : store),
    display_map (Some (0, 1)) (Some (10, 11)) (Some (0.4, 0)) [] = (Raise x, s') /\
    (length (@nil object) < length s')%nat.
Proof.
  apply (display_map_rejects_zero_spacing (0, 1) (10, 11) 0.4 0 []). now right.
Defined.

(** X9.  Only the magnitude of a spacing matters: negating both spacings
    gives the same outcome and the same store. *)
Theorem display_map_spacing_sign (latitude longitude : option (R * R))
    (res_lat res_lon : R) (s : store) :
  display_map latitude longitude (Some (- res_lat, - res_lon)) s =
  display_map latitude longitude (Some (res_lat, res_lon)) s.
Proof. unfold display_map. now rewrite !Rabs_Ropp. Qed.

Lemma arange_count_reversed (start stop step : R) :
  0 < step -> stop <= start ->
  Z.to_nat (Zceil ((stop - start) / step)) = 0%nat.
Proof.
  intros Hs Hle.
  assert (Hq : (stop - start) / step <= 0).
  { unfold Rdiv. apply Rinv_0_lt_compat in Hs. nra. }
  pose proof (Zceil_bound ((stop - start) / step)) as [Hlo _].
  assert (Zceil ((stop - start) / step) < 1)%Z by (apply lt_IZR; lra).
  lia.
Qed.

(** X10.  When the latitude bounds are given in reverse (or coincide), no
    horizontal grid line is drawn, and likewise no vertical line for
    reversed longitude bounds; the map, the outline and the popup are
    still produced. *)
Theorem display_map_reversed_bounds_no_lines (latitude longitude : R * R)
    (res_lat res_lon : R) (s : store) :
  res_lat <> 0 -> res_lon <> 0 ->
  snd latitude <= fst latitude ->
  snd longitude <= fst longitude ->
  exists s',
    display_map (Some latitude) (Some longitude) (Some (res_lat, res_lon)) s =
      (Ok (length s), s') /\
    drawn_on s' (length s) = [esri_group; outline latitude longitude; LatLngPopup].
Proof.
  intros N1 N2 Hlat Hlon.
  destruct (display_map_drawn latitude longitude res_lat res_lon s 0 0 N1 N2)
    as (s' & Hrun & Hd).
  - symmetry. apply arange_count_reversed; [ now apply Rabs_pos_lt | assumption ].
  - symmetry. apply arange_count_reversed; [ now apply Rabs_pos_lt | assumption ].
  - exists s'. split; [ exact Hrun | exact Hd ].
Qed.

Lemma display_map_reversed_bounds_no_lines_witness :
  exists s',
    display_map (Some (1, 0)) (Some (11, 10)) (Some (0.4, 0.5)) [] = (Ok 0%nat, s') /\
    drawn_on s' 0%nat = [esri_group; outline (1, 0) (11, 10); LatLngPopup].
Proof.
  apply (display_map_reversed_bounds_no_lines (1, 0) (11, 10) 0.4 0.5 []);
    simpl; lra.
Defined.

(** ** What the composers leave alone *)

Section Keeps.

Context {A B : Type}.
Implicit Types (I : store -> Prop).

Lemma keeps_ret I (a : A) (Q : A -> Prop) : Q a -> keeps I (ret a) Q.
Proof. intros H s v s' Hs [= <- <-]. auto. Qed.

Lemma keeps_raise I (x : exn) (Q : A -> Prop) : keeps I (raise x) Q.
Proof. intros s v s' Hs [= <- <-]. auto. Qed.

Lemma keeps_lift I (v : result A) : keeps I (lift v) (fun _ => True).
Proof. intros s v' s' Hs [= <- <-]. split; [ assumption | now destruct v ]. Qed.

Lemma keeps_bind I (c : M A) (k : A -> M B) (Q : A -> Prop) (R : B -> Prop) :
  keeps I c Q -> (forall a, Q a -> keeps I (k a) R) -> keeps I (bind c k) R.
Proof.
  intros Hc Hk s v s' Hs. unfold bind.
  destruct (c s) as [[a | x] s1] eqn:E; destruct (Hc _ _ _ Hs E) as [H1 Ha].
  - intros Hrun. exact (Hk a Ha _ _ _ H1 Hrun).
  - intros [= <- <-]. auto.
Qed.

Lemma keeps_for_each I (l : list A) (body : A -> M unit) :
  (forall x, keeps I (body x) (fun _ => True)) ->
  keeps I (for_each l body) (fun _ => True).
Proof.
  intros Hb. induction l as [ | x l IH ]; cbn [for_each].
  - intros s v s' Hs [= <- <-]. auto.
  - intros s v s' Hs. unfold bind.
    destruct (body x s) as [[[] | e] s1] eqn:E; destruct (Hb x _ _ _ Hs E) as [H1 _].
    + intros Hrun. exact (IH _ _ _ H1 Hrun).
    + intros [= <- <-]. auto.
Qed.

End Keeps.

Lemma kept_refl (m : ref) (s : store) : kept m s s.
Proof.
  split; [ lia | ]. intros r [e cs] H. exists []. cbn. now rewrite app_nil_r.
Qed.

Lemma keeps_new (m : ref) (s0 : store) (e : element) :
  keeps (kept m s0) (new e) (fun p => (length s0 <= p)%nat).
Proof.
  intros s v s' [Hlen Hk] [= <- <-]. split; [ split | exact Hlen ].
  - rewrite length_app. lia.
  - intros r o Hr. destruct (Hk r o Hr) as (extra & Hs & Hne).
    exists extra. split; [ | exact Hne ].
    rewrite lookup_app_l; [ exact Hs | eapply lookup_lt_Some, Hs ].
Qed.

Lemma keeps_add_child (m : ref) (s0 : store) (p c : ref) :
  p = m \/ (length s0 <= p)%nat ->
  keeps (kept m s0) (add_child p c) (fun _ => True).
Proof.
  intros Hp s v s' [Hlen Hk] [= <- <-]. split; [ split | exact I ].
  - rewrite length_alter. exact Hlen.
  - intros r o Hr. destruct (Hk r o Hr) as (extra & Hs & Hne).
    destruct (decide (p = r)) as [-> | Hpr].
    + exists (extra ++ [c]). split.
      * rewrite list_lookup_alter_eq, Hs. cbn. now rewrite <- app_assoc.
      * intros Hrm. destruct Hp as [-> | Hge]; [ contradiction | ].
        apply lookup_lt_Some in Hr. lia.
    + exists extra. split; [ | exact Hne ]. now rewrite list_lookup_alter_ne.
Qed.

Ltac keeps_atom :=
  first
    [ apply keeps_new
    | apply keeps_lift
    | apply keeps_raise
    | apply keeps_add_child; auto
    | apply keeps_ret; auto ].

Ltac keeps_seq :=
  repeat (eapply keeps_bind; [ keeps_atom | intros ? ? ]).

Lemma display_map_keeps (latitude longitude resolution : option (R * R))
    (m : ref) (s0 : store) :
  keeps (kept m s0) (display_map latitude longitude resolution)
        (fun r => (length s0 <= r)%nat).
Proof.
  unfold display_map, assert_not_None, add_to.
  destruct latitude as [latitude | ];
    [ | eapply keeps_bind with (Q := fun _ => False);
        [ apply keeps_raise | intros ? [] ] ].
  destruct longitude as [longitude | ];
    [ | eapply keeps_bind with (Q := fun _ => True); [ now apply keeps_ret | intros ? ? ];
        eapply keeps_bind with (Q := fun _ => False);
        [ apply keeps_raise | intros ? [] ] ].
  cbv zeta. keeps_seq.
  eapply keeps_bind with (Q := fun _ => True).
  - destruct resolution as [[res_lat res_lon] | ]; [ | keeps_atom ].
    keeps_seq. eapply keeps_bind with (Q := fun _ => True).
    + apply keeps_for_each. intros x. keeps_seq. keeps_atom.
    + intros _ _. apply keeps_for_each. intros x. keeps_seq. keeps_atom.
  - intros _ _. keeps_seq. keeps_atom.
Qed.

(** X12.  [display_map] only allocates: whatever its arguments and its
    outcome, every object that was in the store before the call is still
    there, unchanged. *)
Theorem display_map_leaves_store_alone (latitude longitude resolution : option (R * R))
    (s : store) (r : ref) (o : object) :
  s !! r = Some o ->
  snd (display_map latitude longitude resolution s) !! r = Some o.
Proof.
  intros Hr.
  destruct (display_map latitude longitude resolution s) as [v s'] eqn:E.
  destruct (display_map_keeps latitude longitude resolution (length s) s
              s v s' (kept_refl _ _) E) as [[_ Hk] _].
  destruct (Hk r o Hr) as (extra & Hs & Hne). cbn [snd].
  rewrite Hs, Hne, app_nil_r; [ now destruct o | ].
  apply lookup_lt_Some in Hr. lia.
Qed.

Lemma display_map_leaves_store_alone_witness :
  snd (display_map (Some (0, 1)) (Some (10, 11)) (Some (0.4, 0.5))
                   [mkObject LatLngPopup []]) !! 0%nat =
  Some (mkObject LatLngPopup []).
Proof. now apply display_map_leaves_store_alone. Defined.

(** ** The grouped-point composer: failures *)

Section GroupedFailures.

Variable group_name : string.

Lemma row_getitem_raise (r : row) (x : exn) :
  row_getitem r group_name = Raise x -> x = KeyError.
Proof.
  unfold row_getitem.
  destruct (String.eqb group_name "Latitude"); [ discriminate | ].
  destruct (String.eqb group_name "Longitude"); [ discriminate | ].
  destruct (assoc group_name (attrs r)); [ discriminate | now intros [= <-] ].
Qed.

Lemma df_getitem_missing (data_frame : list row) :
  Exists (fun r => row_getitem r group_name = Raise KeyError) data_frame ->
  df_getitem data_frame group_name = Raise KeyError.
Proof.
  induction data_frame as [ | r rest IH ]; intros H; [ inversion H | ].
  cbn. destruct (row_getitem r group_name) as [c | x] eqn:Er; cbn.
  - inversion H as [ ? ? Hr | ? ? Hrest ]; subst; [ congruence | ].
    now rewrite IH.
  - now rewrite (row_getitem_raise r x Er).
Qed.

(** The composer up to the label dictionary: on a non-empty frame the
    aggregates and the zoom estimate succeed, so the outcome of
    [label_colors] decides. *)
Lemma grouped_fails_with_labels (data_frame : list row) (folium_map : option ref)
    (s : store) (x : exn) :
  data_frame <> [] ->
  label_colors data_frame group_name = Raise x ->
  display_grouped_pandas_rows_as_pins data_frame group_name folium_map s =
    (Raise x, s).
Proof.
  intros Hne Hlc.
  destruct (series_ok (map Latitude data_frame))
    as (lat_mean & lat_min & lat_max & Emean & Emin & Emax);
    [ now destruct data_frame | ].
  destruct (series_ok (map Longitude data_frame)) as (lon_mean & _ & _ & Elon & _ & _);
    [ now destruct data_frame | ].
  destruct (zoom_zero_margin lat_min lat_max) as [z Hz].
  unfold display_grouped_pandas_rows_as_pins.
  rewrite (run_lift _ lat_mean) by exact Emean.
  rewrite (run_lift _ lon_mean) by exact Elon.
  rewrite (run_lift _ lat_min) by exact Emin.
  rewrite (run_lift _ lat_max) by exact Emax.
  rewrite (run_lift _ z) by exact Hz.
  now rewrite (run_lift_raise _ x) by exact Hlc.
Qed.

End GroupedFailures.

(** X14.  When the group column is missing from the frame the composer
    fails with a KeyError and the store is untouched: no map has been
    created and a supplied map has gained nothing. *)
Theorem grouped_pins_missing_column (data_frame : list row) (group_name : string)
    (folium_map : option ref) (s : store) :
  data_frame <> [] ->
  Exists (fun r => row_getitem r group_name = Raise KeyError) data_frame ->
  display_grouped_pandas_rows_as_pins data_frame group_name folium_map s =
    (Raise KeyError, s).
Proof.
  intros Hne Hex. apply grouped_fails_with_labels; [ exact Hne | ].
  unfold label_colors. now rewrite df_getitem_missing.
Qed.

Lemma grouped_pins_missing_column_witness :
  display_grouped_pandas_rows_as_pins
    [mkRow 10 20 [("Crop"%string, CStr "maize")]] "LandUse" None [] =
    (Raise KeyError, []).
Proof.
  apply grouped_pins_missing_column; [ discriminate | ].
  constructor. reflexivity.
Defined.

(** X15.  When the group column holds more than 128 distinct values the
    composer fails with the palette's exception before any map is
    created; the store is untouched. *)
Theorem grouped_pins_too_many_labels (data_frame : list row) (group_name : string)
    (folium_map : option ref) (s : store) (col : list cell) :
  data_frame <> [] ->
  df_getitem data_frame group_name = Ok col ->
  (128 < length (pd_unique col))%nat ->
  display_grouped_pandas_rows_as_pins data_frame group_name folium_map s =
    (Raise (Exception "Can not generate more than 128 distinct colors."), s).
Proof.
  intros Hne Hcol Hlen. apply grouped_fails_with_labels; [ exact Hne | ].
  unfold label_colors. rewrite Hcol. cbn [rbind].
  now rewrite too_many_colors by lia.
Qed.

Lemma grouped_pins_too_many_labels_witness :
  display_grouped_pandas_rows_as_pins
    (map (fun n => mkRow 10 20 [("LandUse"%string, CStr (str (Z.of_nat n)))])
         (seq 0 129))
    "LandUse" None [] =
    (Raise (Exception "Can not generate more than 128 distinct colors."), []).
Proof.
  apply grouped_pins_too_many_labels
    with (col := map (fun n => CStr (str (Z.of_nat n))) (seq 0 129)).
  - discriminate.
  - reflexivity.
  - vm_compute. lia.
Defined.

(** ** The grouped-point composer: what it touches *)

Lemma grouped_pins_keeps (data_frame : list row) (group_name : string)
    (folium_map : option ref) (m0 : ref) (s0 : store) :
  (forall m, folium_map = Some m -> m = m0) ->
  keeps (kept m0 s0)
        (display_grouped_pandas_rows_as_pins data_frame group_name folium_map)
        (fun r => r = m0 \/ (length s0 <= r)%nat).
Proof.
  intros Hm0. unfold display_grouped_pandas_rows_as_pins, add_to.
  cbv zeta. keeps_seq.
  eapply keeps_bind with (Q := fun m => m = m0 \/ (length s0 <= m)%nat).
  - destruct folium_map as [m | ].
    + apply keeps_ret. left. now apply Hm0.
    + keeps_seq. keeps_atom.
  - intros m Hm. eapply keeps_bind with (Q := fun _ => True).
    + apply keeps_for_each. intros i. keeps_seq. keeps_atom.
    + intros _ _. keeps_seq. keeps_atom.
Qed.

(** X17.  Drawing onto a supplied map touches that map only: whatever
    the outcome, every object already in the store keeps its element and
    its children in their old order, and only the supplied map may have
    gained children. *)
Theorem grouped_pins_touches_supplied_map_only (data_frame : list row)
    (group_name : string) (folium_map : option ref) (s : store)
    (r : ref) (o : object) :
  s !! r = Some o ->
  exists extra : list ref,
    snd (display_grouped_pandas_rows_as_pins data_frame group_name folium_map s) !! r =
      Some (mkObject (elem o) (children o ++ extra)) /\
    (folium_map <> Some r -> extra = []).
Proof.
  intros Hr.
  destruct (display_grouped_pandas_rows_as_pins data_frame group_name folium_map s)
    as [v s'] eqn:E.
  set (m0 := match folium_map with Some m => m | None => length s end).
  destruct (grouped_pins_keeps data_frame group_name folium_map m0 s
              ltac:(now intros m ->) s v s' (kept_refl _ _) E) as [[_ Hk] _].
  destruct (Hk r o Hr) as (extra & Hs & Hne). exists extra.
  split; [ exact Hs | ]. intros Hf. apply Hne. unfold m0.
  destruct folium_map as [m | ]; [ congruence | ].
  apply lookup_lt_Some in Hr. lia.
Qed.

Lemma grouped_pins_touches_supplied_map_only_witness :
  exists extra : list ref,
    snd (display_grouped_pandas_rows_as_pins
           [mkRow 10 20 [("LandUse"%string, CStr "A")]] "LandUse" (Some 0%nat)
           [mkObject (Map None [0; 0] 3) []; mkObject LatLngPopup []]) !! 1%nat =
      Some (mkObject LatLngPopup ([] ++ extra)) /\
    (Some 0%nat <> Some 1%nat -> extra = []).
Proof.
  apply (grouped_pins_touches_supplied_map_only
           [mkRow 10 20 [("LandUse"%string, CStr "A")]] "LandUse" (Some 0%nat)
           [mkObject (Map None [0; 0] 3) []; mkObject LatLngPopup []]
           1%nat (mkObject LatLngPopup [])).
  reflexivity.
Defined.

(** ** Zoom levels the composers pass to folium *)

Lemma zoom_level_at_least_one (l1 l2 margin : R) :
  0 <= Rabs (l1 - l2) * (1 + margin) <= 180 ->
  exists z : Z, _degree_to_zoom_level l1 l2 margin = Ok z /\ (1 <= z)%Z.
Proof.
  intros [[Hpos | Hz] Hle].
  - set (d := Rabs (l1 - l2) * (1 + margin)) in *.
    eexists. split; [ now apply zoom_positive_span | ]. fold d.
    assert (E : log2_trunc 2 = 1%Z).
    { apply (log2_trunc_pow _ 1). simpl. lra. }
    assert (H2 : 2 <= 360 / d).
    { assert (Hd' : 0 < / d) by now apply Rinv_0_lt_compat.
      apply Rmult_le_reg_r with d; [ assumption | ].
      replace (360 / d * d) with 360 by (field; lra). lra. }
    pose proof (log2_trunc_mono 2 (360 / d) ltac:(lra) H2). lia.
  - exists 18%Z. split; [ now apply zoom_zero_span | lia ].
Qed.

(** X19.  For bounds at most 360 degrees apart on each axis, which covers
    every pair of geographic coordinates, the map [display_map] returns
    has a zoom level of at least 1. *)
Theorem display_map_zoom_at_least_one (latitude longitude : R * R)
    (resolution : option (R * R)) (s : store) :
  grid_step_ok resolution ->
  Rabs (fst latitude - snd latitude) <= 360 ->
  Rabs (fst longitude - snd longitude) <= 360 ->
  exists (z : Z) (cs : list ref) (s' : store),
    display_map (Some latitude) (Some longitude) resolution s = (Ok (length s), s') /\
    s' !! length s =
      Some (mkObject (Map None [np_mean latitude; np_mean longitude] z) cs) /\
    (1 <= z)%Z.
Proof.
  intros Hres Hlat Hlon.
  destruct (zoom_level_at_least_one (fst latitude) (snd latitude) (-0.5))
    as (zlat & Elat & Zlat).
  { pose proof (Rabs_pos (fst latitude - snd latitude)). lra. }
  destruct (zoom_level_at_least_one (fst longitude) (snd longitude) (-0.5))
    as (zlon & Elon & Zlon).
  { pose proof (Rabs_pos (fst longitude - snd longitude)). lra. }
  assert (exists lats lons,
    match resolution with
    | Some (res_lat, res_lon) =>
        arange (fst latitude) (snd latitude) (Rabs res_lat) = Ok lats /\
        arange (fst longitude) (snd longitude) (Rabs res_lon) = Ok lons
    | None => lats = [] /\ lons = []
    end) as (lats & lons & Hgrid).
  { destruct resolution as [[res_lat res_lon] | ]; [ | now exists [], [] ].
    destruct Hres as [H1 H2].
    destruct (arange_ok (fst latitude) (snd latitude) res_lat H1) as [lats E1].
    destruct (arange_ok (fst longitude) (snd longitude) res_lon H2) as [lons E2].
    now exists lats, lons. }
  destruct (display_map_run latitude longitude resolution s lats lons zlat zlon
              Elat Elon Hgrid) as (s' & Hrun & cs & Hcs & _).
  exists (Z.min (zlat + 0) (zlon + 0)), cs, s'. repeat split; try assumption. lia.
Qed.

Lemma display_map_zoom_at_least_one_witness :
  exists (z : Z) (cs : list ref) (s' : store),
    display_map (Some (-90, 90)) (Some (-180, 180)) None [] = (Ok 0%nat, s') /\
    s' !! 0%nat =
      Some (mkObject (Map None [np_mean (-90, 90); np_mean (-180, 180)] z) cs) /\
    (1 <= z)%Z.
Proof.
  apply (display_map_zoom_at_least_one (-90, 90) (-180, 180) None []).
  - exact I.
  - replace (Rabs (fst (-90, 90) - snd (-90, 90))) with 180 by (simpl; solve_abs). lra.
  - replace (Rabs (fst (-180, 180) - snd (-180, 180))) with 360 by (simpl; solve_abs).
    lra.
Defined.

Section GroupedView.

Variable group_name : string.

Lemma series_min_bounds (lo hi : R) (l : list R) (a : R) :
  Forall (fun x => lo <= x <= hi) l -> series_min l = Ok a -> lo <= a <= hi.
Proof.
  destruct l as [ | x l ]; [ discriminate | ]. cbn. intros HF [= <-].
  inversion HF as [ | ? ? Hx Hl ]; subst. clear HF.
  revert x Hx. induction Hl as [ | y l Hy Hl IH ]; intros x Hx; cbn; [ exact Hx | ].
  apply IH. unfold Rmin. destruct (Rle_dec x y); assumption.
Qed.

Lemma series_max_bounds (lo hi : R) (l : list R) (a : R) :
  Forall (fun x => lo <= x <= hi) l -> series_max l = Ok a -> lo <= a <= hi.
Proof.
  destruct l as [ | x l ]; [ discriminate | ]. cbn. intros HF [= <-].
  inversion HF as [ | ? ? Hx Hl ]; subst. clear HF.
  revert x Hx. induction Hl as [ | y l Hy Hl IH ]; intros x Hx; cbn; [ exact Hx | ].
  apply IH. unfold Rmax. destruct (Rle_dec x y); assumption.
Qed.

(** The map the composer creates when none is supplied. *)
Lemma grouped_pins_new_map (data_frame : list row) (s : store) (col : list cell)
    (lat_mean lon_mean lat_min lat_max : R) (z : Z) :
  series_mean (map Latitude data_frame) = Ok lat_mean ->
  series_mean (map Longitude data_frame) = Ok lon_mean ->
  series_min (map Latitude data_frame) = Ok lat_min ->
  series_max (map Latitude data_frame) = Ok lat_max ->
  _degree_to_zoom_level lat_min lat_max 0.0 = Ok z ->
  df_getitem data_frame group_name = Ok col ->
  (length (pd_unique col) <= 128)%nat ->
  exists (s' : store) (cs : list ref),
    display_grouped_pandas_rows_as_pins data_frame group_name None s =
      (Ok (length s), s') /\
    s' !! length s = Some (mkObject (Map None [lat_mean; lon_mean] z) cs).
Proof.
  intros Emean Elon Emin Emax Hz Hcol Hlen.
  destruct (markers_exist group_name col data_frame col Hlen
              (df_getitem_rows _ _ _ Hcol)) as [markers HM]; [ trivial | ].
  set (labels := pd_unique col) in *.
  set (cd := combine labels (firstn (length labels) colors)) in *.
  unfold display_grouped_pandas_rows_as_pins.
  rewrite (run_lift _ lat_mean) by exact Emean.
  rewrite (run_lift _ lon_mean) by exact Elon.
  rewrite (run_lift _ lat_min) by exact Emin.
  rewrite (run_lift _ lat_max) by exact Emax.
  rewrite (run_lift _ z) by exact Hz.
  rewrite (run_lift _ (labels, cd)) by now apply label_colors_ok.
  cbn [fst snd]. rewrite run_assoc, run_new.
  pose proof (attached_fresh s (Map None [lat_mean; lon_mean] z)) as Hm.
  destruct (run_esri_group _ _ _ _ Hm) as (s1 & Hg & H1 & _).
  rewrite (run_seq _ _ _ (length s) s1) by (now rewrite Hg).
  destruct (pins_loop group_name data_frame labels cd (length s)
              (Map None [lat_mean; lon_mean] z) data_frame [] markers s1
              ([] ++ [esri_group]))
    as (s2 & Hloop & H2); [ reflexivity | | exact H1 | ].
  { eapply Forall2_impl; [ exact HM | ].
    intros r mk (lbl & i & c & ? & ? & ? & ? & ? & ?). now exists lbl, i, c. }
  cbn [length] in Hloop.
  rewrite (run_seq _ _ _ tt s2) by exact Hloop.
  rewrite run_new, run_add_child.
  eexists. 
  assert (Hfin : attached (alter (with_child (length s2)) (length s)
                                 (s2 ++ [mkObject LatLngPopup []]))
                          (length s) (Map None [lat_mean; lon_mean] z)
                          ((([] ++ [esri_group]) ++ markers) ++ [LatLngPopup])).
  { apply attached_link; [ now apply attached_alloc | apply has_elem_fresh ]. }
  destruct Hfin as (cs & Hcs & _). exists cs. split; [ reflexivity | exact Hcs ].
Qed.

End GroupedView.

(** X16.  When no map is supplied, the composer creates one centred at
    the means of the latitude and longitude columns, with the zoom level
    estimated from the smallest and largest latitude alone at margin 0;
    for latitudes within [-90, 90] that level is at least 1. *)
Theorem grouped_pins_new_map_view (data_frame : list row) (group_name : string)
    (s : store) (col : list cell) :
  data_frame <> [] ->
  df_getitem data_frame group_name = Ok col ->
  (length (pd_unique col) <= 128)%nat ->
  exists (lat_min lat_max : R) (z : Z) (cs : list ref) (s' : store),
    series_min (map Latitude data_frame) = Ok lat_min /\
    series_max (map Latitude data_frame) = Ok lat_max /\
    _degree_to_zoom_level lat_min lat_max 0.0 = Ok z /\
    display_grouped_pandas_rows_as_pins data_frame group_name None s =
      (Ok (length s), s') /\
    s' !! length s =
      Some (mkObject
              (Map None
                   [fold_right Rplus 0 (map Latitude data_frame) / INR (length data_frame);
                    fold_right Rplus 0 (map Longitude data_frame) / INR (length data_frame)]
                   z)
              cs) /\
    (Forall (fun r => -90 <= Latitude r <= 90) data_frame -> (1 <= z)%Z).
Proof.
  intros Hne Hcol Hlen.
  destruct (series_ok (map Latitude data_frame))
    as (lat_mean & lat_min & lat_max & Emean & Emin & Emax);
    [ now destruct data_frame | ].
  destruct (series_ok (map Longitude data_frame)) as (lon_mean & _ & _ & Elon & _ & _);
    [ now destruct data_frame | ].
  destruct (zoom_zero_margin lat_min lat_max) as [z Hz].
  destruct (grouped_pins_new_map group_name data_frame s col lat_mean lon_mean
              lat_min lat_max z Emean Elon Emin Emax Hz Hcol Hlen)
    as (s' & cs & Hrun & Hcs).
  exists lat_min, lat_max, z, cs, s'.
  repeat (split; [ assumption | ]).
  split.
  - rewrite Hcs. do 3 f_equal.
    destruct data_frame as [ | r0 rows ]; [ contradiction | ].
    cbn in Emean, Elon. injection Emean as <-. injection Elon as <-.
    cbn. now rewrite !length_map.
  - intros HF.
    assert (HL : Forall (fun x => -90 <= x <= 90) (map Latitude data_frame))
      by now apply Forall_map.
    pose proof (series_min_bounds _ _ _ _ HL Emin).
    pose proof (series_max_bounds _ _ _ _ HL Emax).
    destruct (zoom_level_at_least_one lat_min lat_max 0.0) as (z' & Ez & Hz').
    { split; [ pose proof (Rabs_pos (lat_min - lat_max)); lra | ].
      replace (1 + 0.0) with 1 by lra. rewrite Rmult_1_r.
      unfold Rabs. destruct (Rcase_abs _); lra. }
    congruence.
Qed.

Lemma grouped_pins_new_map_view_witness :
  let df := [mkRow 10 20 [("LandUse"%string, CStr "A")];
             mkRow 12 26 [("LandUse"%string, CStr "B")]] in
  exists (lat_min lat_max : R) (z : Z) (cs : list ref) (s' : store),
    series_min (map Latitude df) = Ok lat_min /\
    series_max (map Latitude df) = Ok lat_max /\
    _degree_to_zoom_level lat_min lat_max 0.0 = Ok z /\
    display_grouped_pandas_rows_as_pins df "LandUse" None [] = (Ok 0%nat, s') /\
    s' !! 0%nat =
      Some (mkObject
              (Map None
                   [fold_right Rplus 0 (map Latitude df) / INR (length df);
                    fold_right Rplus 0 (map Longitude df) / INR (length df)]
                   z)
              cs) /\
    (Forall (fun r => -90 <= Latitude r <= 90) df -> (1 <= z)%Z).
Proof.
  intros df.
  apply (grouped_pins_new_map_view df "LandUse" [] [CStr "A"; CStr "B"]).
  - discriminate.
  - reflexivity.
  - vm_compute. lia.
Defined.

(** ** Labels and colours *)

Lemma dict_get_combine_inv (labels : list cell) (vs : list string) (k : cell)
    (v : string) :
  dict_get (combine labels vs) k = Ok v ->
  exists i, labels !! i = Some k /\ vs !! i = Some v.
Proof.
  revert vs. induction labels as [ | y labels IH ]; intros vs; cbn; [ discriminate | ].
  destruct vs as [ | v0 vs ]; cbn; [ discriminate | ].
  destruct (cell_eqb y k) eqn:E.
  - intros [= ->]. apply cell_eqb_eq in E. subst. now exists 0%nat.
  - intros H. destruct (IH vs H) as (i & Hi & Hv). now exists (S i).
Qed.

(** X18.  The label-to-colour dictionary has one entry per distinct
    group value, gives every group value of the frame a colour, and never
    gives two different values the same colour. *)
Theorem label_colors_injective (data_frame : list row) (group_name : string)
    (labels : list cell) (cd : dict) :
  label_colors data_frame group_name = Ok (labels, cd) ->
  length cd = length labels /\
  (forall r lbl,
      In r data_frame -> row_getitem r group_name = Ok lbl ->
      exists c, dict_get cd lbl = Ok c) /\
  (forall l1 l2 c, dict_get cd l1 = Ok c -> dict_get cd l2 = Ok c -> l1 = l2).
Proof.
  intros H.
  assert (exists col,
    df_getitem data_frame group_name = Ok col /\
    (length (pd_unique col) <= 128)%nat) as (col & Hcol & Hlen).
  { unfold label_colors in H.
    destruct (df_getitem data_frame group_name) as [col | ]; [ | discriminate ].
    exists col. split; [ reflexivity | ]. cbn [rbind] in H.
    destruct (Nat.le_gt_cases (length (pd_unique col)) 128) as [Hle | Hgt];
      [ exact Hle | ].
    rewrite too_many_colors in H by lia. discriminate. }
  rewrite (label_colors_ok group_name _ _ Hcol Hlen) in H.
  injection H as <- <-.
  set (labels := pd_unique col) in *.
  set (pal := firstn (length labels) colors).
  assert (Hpal : length pal = length labels).
  { unfold pal. rewrite length_take, colors_length. lia. }
  split; [ rewrite length_combine; lia | ]. split.
  - intros r lbl Hr Hl.
    assert (Hin : In lbl col).
    { pose proof (df_getitem_rows group_name _ _ Hcol) as HF.
      clear -HF Hr Hl. induction HF as [ | r' c rows cs Hr' HF IH ]; [ contradiction | ].
      destruct Hr as [-> | Hr]; [ left; congruence | right; now apply IH ]. }
    destruct (list_index_In lbl labels) as (i & Hi & Hli);
      [ now apply pd_unique_In | ].
    destruct (lookup_lt_is_Some_2 pal i) as [c Hc].
    { rewrite Hpal. eapply lookup_lt_Some, Hli. }
    exists c. eapply dict_get_combine; eassumption.
  - intros l1 l2 c H1 H2.
    apply dict_get_combine_inv in H1 as (i1 & L1 & C1).
    apply dict_get_combine_inv in H2 as (i2 & L2 & C2).
    assert (i1 = i2).
    { eapply (NoDup_lookup pal); [ | exact C1 | exact C2 ].
      eapply sublist_NoDup; [ apply colors_NoDup | apply sublist_take ]. }
    subst. congruence.
Qed.

Lemma label_colors_injective_witness :
  let df := [mkRow 10 20 [("LandUse"%string, CStr "A")];
             mkRow 11 21 [("LandUse"%string, CStr "B")];
             mkRow 12 22 [("LandUse"%string, CStr "A")]] in
  let cd := [(CStr "A", "#000000"%string); (CStr "B", "#FFFF00"%string)] in
  length cd = length [CStr "A"; CStr "B"] /\
  (forall r lbl,
      In r df -> row_getitem r "LandUse" = Ok lbl ->
      exists c, dict_get cd lbl = Ok c) /\
  (forall l1 l2 c, dict_get cd l1 = Ok c -> dict_get cd l2 = Ok c -> l1 = l2).
Proof.
  intros df cd.
  apply (label_colors_injective df "LandUse" [CStr "A"; CStr "B"] cd).
  reflexivity.
Defined.

(** ** Bounds given in either order *)

(** X20.  Swapping the two bounds of each pair changes neither the
    centre nor the zoom level of the map [display_map] returns. *)
Theorem display_map_view_ignores_bound_order (lat0 lat1 lon0 lon1 : R)
    (resolution : option (R * R)) (s : store) :
  grid_step_ok resolution ->
  exists (view : element) (cs cs' : list ref) (s1 s2 : store),
    display_map (Some (lat0, lat1)) (Some (lon0, lon1)) resolution s =
      (Ok (length s), s1) /\
    display_map (Some (lat1, lat0)) (Some (lon1, lon0)) resolution s =
      (Ok (length s), s2) /\
    s1 !! length s = Some (mkObject view cs) /\
    s2 !! length s = Some (mkObject view cs').
Proof.
  intros Hres.
  destruct (zoom_half_margin lat0 lat1) as [zlat Hlat].
  destruct (zoom_half_margin lon0 lon1) as [zlon Hlon].
  assert (Hlat' : _degree_to_zoom_level lat1 lat0 (-0.5) = Ok zlat).
  { rewrite <- Hlat. unfold _degree_to_zoom_level. now rewrite Rabs_minus_sym. }
  assert (Hlon' : _degree_to_zoom_level lon1 lon0 (-0.5) = Ok zlon).
  { rewrite <- Hlon. unfold _degree_to_zoom_level. now rewrite Rabs_minus_sym. }
  assert (Hgrid : forall la lo : R * R, exists lats lons,
    match resolution with
    | Some (res_lat, res_lon) =>
        arange (fst la) (snd la) (Rabs res_lat) = Ok lats /\
        arange (fst lo) (snd lo) (Rabs res_lon) = Ok lons
    | None => lats = [] /\ lons = []
    end).
  { intros la lo.
    destruct resolution as [[res_lat res_lon] | ]; [ | now exists [], [] ].
    destruct Hres as [H1 H2].
    destruct (arange_ok (fst la) (snd la) res_lat H1) as [lats E1].
    destruct (arange_ok (fst lo) (snd lo) res_lon H2) as [lons E2].
    now exists lats, lons. }
  destruct (Hgrid (lat0, lat1) (lon0, lon1)) as (lats & lons & G1).
  destruct (Hgrid (lat1, lat0) (lon1, lon0)) as (lats' & lons' & G2).
  destruct (display_map_run (lat0, lat1) (lon0, lon1) resolution s lats lons
              zlat zlon Hlat Hlon G1) as (s1 & R1 & cs & C1 & _).
  destruct (display_map_run (lat1, lat0) (lon1, lon0) resolution s lats' lons'
              zlat zlon Hlat' Hlon' G2) as (s2 & R2 & cs' & C2 & _).
  exists (Map None [np_mean (lat0, lat1); np_mean (lon0, lon1)]
              (Z.min (zlat + 0) (zlon + 0))), cs, cs', s1, s2.
  repeat (split; [ assumption | ]).
  rewrite C2. unfold np_mean. cbn [fst snd].
  now rewrite (Rplus_comm lat1 lat0), (Rplus_comm lon1 lon0).
Qed.

Lemma display_map_view_ignores_bound_order_witness :
  exists (view : element) (cs cs' : list ref) (s1 s2 : store),
    display_map (Some (0, 1)) (Some (10, 11)) None [] = (Ok 0%nat, s1) /\
    display_map (Some (1, 0)) (Some (11, 10)) None [] = (Ok 0%nat, s2) /\
    s1 !! 0%nat = Some (mkObject view cs) /\
    s2 !! 0%nat = Some (mkObject view cs').
Proof. apply (display_map_view_ignores_bound_order 0 1 10 11 None []). exact I. Defined.
